(** * postgres-migrate: a shallow embedding of [lib/index.js]

    The development follows the layout of the source file:
    - JavaScript strings and the string methods the library calls;
    - the [node:path] functions [resolve] and [join];
    - the file system, the database and the effect monad;
    - [generateMigration], [getMigrationFiles], [applyMigrations],
      [resetDatabase];
    - the properties of the specification, proved or refuted on these
      definitions.

    A JavaScript string is modelled by a Rocq [string] whose characters are
    its UTF-16 code units; the model covers the code units below 256
    (Latin-1), for which [toLowerCase], [\s] and [\d] are written out in
    full. *)

From Stdlib Require Import ZArith Ascii String List Lia.
From stdpp Require Import base gmap strings list sorting pretty.

Local Open Scope Z_scope.

(** ** JavaScript strings *)

Module Js.

Definition code (c : ascii) : N := N_of_ascii c.

Definition inRange (lo hi : N) (c : ascii) : bool :=
  ((lo <=? code c) && (code c <=? hi))%N.

(** [\d] *)
Definition isDigit (c : ascii) : bool := inRange 48 57 c.

(** [a-z] *)
Definition isLowerAZ (c : ascii) : bool := inRange 97 122 c.

(** [A-Z] *)
Definition isUpperAZ (c : ascii) : bool := inRange 65 90 c.

Definition isSpaceChar (c : ascii) : bool := (code c =? 32)%N.

(** [\s] on the code units below 256: TAB, LF, VT, FF, CR, SP, NBSP. *)
Definition isWhitespace (c : ascii) : bool :=
  inRange 9 13 c || (code c =? 32)%N || (code c =? 160)%N.

(** The class [[ a-z\d]] and its complement [[^ a-z\d]]. *)
Definition isSpaceLowerDigit (c : ascii) : bool :=
  isSpaceChar c || isLowerAZ c || isDigit c.

Definition notSpaceLowerDigit (c : ascii) : bool := negb (isSpaceLowerDigit c).

(** [\D] *)
Definition notDigit (c : ascii) : bool := negb (isDigit c).

(** [s.replace(/cls/g, r)] for a regular expression that is one character
    class: every matching code unit is replaced by [r]. *)
Fixpoint replaceAll (cls : ascii -> bool) (r : string) (s : string) : string :=
  match s with
  | EmptyString => EmptyString
  | String c s' =>
      if cls c then r +:+ replaceAll cls r s'
      else String c (replaceAll cls r s')
  end.

(** [toLowerCase] of one code unit below 256: A-Z, and the Latin-1 capitals
    U+00C0..U+00DE except the multiplication sign U+00D7. *)
Definition lowerChar (c : ascii) : ascii :=
  if isUpperAZ c || (inRange 192 222 c && negb (code c =? 215)%N)
  then ascii_of_N (code c + 32)
  else c.

Fixpoint toLowerCase (s : string) : string :=
  match s with
  | EmptyString => EmptyString
  | String c s' => String (lowerChar c) (toLowerCase s')
  end.

(** [s.slice(0, n)] *)
Definition slice0 (n : nat) (s : string) : string := String.substring 0 n s.

Fixpoint startsWith (p s : string) : bool :=
  match p, s with
  | EmptyString, _ => true
  | String a p', String b s' => if Ascii.eqb a b then startsWith p' s' else false
  | String _ _, EmptyString => false
  end.

(** [s.endsWith(p)] *)
Definition endsWith (p s : string) : bool :=
  startsWith (String.rev p) (String.rev s).

(** [s.split(sep)] for a separator of one code unit. *)
Fixpoint split (sep : ascii) (s : string) : list string :=
  match s with
  | EmptyString => [EmptyString]
  | String c s' =>
      if Ascii.eqb c sep then EmptyString :: split sep s'
      else match split sep s' with
           | h :: t => String c h :: t
           | [] => [String c EmptyString]
           end
  end.

Fixpoint trimStart (s : string) : string :=
  match s with
  | EmptyString => EmptyString
  | String c s' => if isWhitespace c then trimStart s' else s
  end.

(** [s.trim()] *)
Definition trim (s : string) : string :=
  String.rev (trimStart (String.rev (trimStart s))).

(** [l.join(sep)] *)
Fixpoint join (sep : string) (l : list string) : string :=
  match l with
  | [] => EmptyString
  | [x] => x
  | x :: l' => x +:+ sep +:+ join sep l'
  end.

Definition dquote : string := String (ascii_of_N 34) EmptyString.
Definition newline : string := String (ascii_of_N 10) EmptyString.

(** Every code unit of [s] satisfies [p]. *)
Fixpoint allChars (p : ascii -> bool) (s : string) : bool :=
  match s with
  | EmptyString => true
  | String c s' => p c && allChars p s'
  end.

(** [Date]: the UTC fields of a time value, as the [getUTC*] accessors
    return them (the month is 0-based). *)
Record Date := {
  utcFullYear : Z;
  utcMonth : Z;
  utcDate : Z;
  utcHours : Z;
  utcMinutes : Z;
  utcSeconds : Z;
  utcMilliseconds : Z
}.

Definition digitChar (d : Z) : ascii := ascii_of_N (48 + Z.to_N d).

(** [n] written with [w] decimal digits, zero-padded. *)
Fixpoint padAcc (w : nat) (n : Z) (acc : string) : string :=
  match w with
  | O => acc
  | S w' => padAcc w' (n / 10) (String (digitChar (n mod 10)) acc)
  end.

Definition pad (w : nat) (n : Z) : string := padAcc w n EmptyString.

(** The year of an ISO date: four digits from 0 to 9999, otherwise a sign
    and six digits. *)
Definition isoYear (y : Z) : string :=
  if (0 <=? y) && (y <=? 9999) then pad 4 y
  else if y <? 0 then "-" +:+ pad 6 (- y)
  else "+" +:+ pad 6 y.

(** [d.toISOString()], e.g. 2023-10-25T19:42:00.000Z *)
Definition toISOString (d : Date) : string :=
  isoYear (utcFullYear d) +:+ "-" +:+ pad 2 (utcMonth d + 1) +:+ "-" +:+
  pad 2 (utcDate d) +:+ "T" +:+ pad 2 (utcHours d) +:+ ":" +:+
  pad 2 (utcMinutes d) +:+ ":" +:+ pad 2 (utcSeconds d) +:+ "." +:+
  pad 3 (utcMilliseconds d) +:+ "Z".

End Js.

(** ** Objects used as lookup tables *)

Module JsObject.

(** [Object.fromEntries(entries)]: a later entry overwrites an earlier one
    with the same key. *)
Definition fromEntries {V} (entries : list (string * V)) : gmap string V :=
  foldl (fun o kv => <[kv.1 := kv.2]> o) ∅ entries.

(** The properties every plain object inherits from [Object.prototype]. *)
Definition prototypeKeys : list string :=
  ["constructor"; "__defineGetter__"; "__defineSetter__"; "hasOwnProperty";
   "__lookupGetter__"; "__lookupSetter__"; "isPrototypeOf";
   "propertyIsEnumerable"; "toString"; "valueOf"; "__proto__";
   "toLocaleString"].

(** The value of [o[key]]: an own property, an inherited one (a function or
    [Object.prototype] itself), or [undefined]. *)
Inductive Property (V : Type) : Type :=
| Own (v : V)
| Inherited
| Undefined.
Arguments Own {V} v.
Arguments Inherited {V}.
Arguments Undefined {V}.

Definition get {V} (o : gmap string V) (key : string) : Property V :=
  match o !! key with
  | Some v => Own v
  | None => if bool_decide (key ∈ prototypeKeys) then Inherited else Undefined
  end.

(** [!o[key]] *)
Definition isFalsy {V} (p : Property V) : bool :=
  match p with
  | Undefined => true
  | _ => false
  end.

End JsObject.

(** ** [node:path], POSIX flavour *)

Module Path.

Definition isAbsolute (p : string) : bool := Js.startsWith "/" p.

(** One step of [normalizeString]: [stack] holds the segments kept so far,
    the last one first. *)
Definition normalizeStep (allowAboveRoot : bool) (stack : list string)
    (seg : string) : list string :=
  if bool_decide (seg = "") || bool_decide (seg = ".") then stack
  else if bool_decide (seg = "..") then
    match stack with
    | top :: rest =>
        if bool_decide (top = "..") then seg :: stack else rest
    | [] => if allowAboveRoot then [seg] else []
    end
  else seg :: stack.

Definition normalizeString (p : string) (allowAboveRoot : bool) : string :=
  Js.join "/" (reverse (foldl (normalizeStep allowAboveRoot) [] (Js.split "/" p))).

Definition normalize (p : string) : string :=
  if bool_decide (p = "") then "."
  else
    let isAbs := isAbsolute p in
    let trailingSeparator := Js.endsWith "/" p in
    let q := normalizeString p (negb isAbs) in
    if bool_decide (q = "") then
      if isAbs then "/" else if trailingSeparator then "./" else "."
    else
      let q := if trailingSeparator then q +:+ "/" else q in
      if isAbs then "/" +:+ q else q.

(** [path.join(a, b)] *)
Definition join (a b : string) : string :=
  match bool_decide (a = ""), bool_decide (b = "") with
  | true, true => "."
  | true, false => normalize b
  | false, true => normalize a
  | false, false => normalize (a +:+ "/" +:+ b)
  end.

(** [path.resolve(p)] in a process whose working directory is [cwd]. *)
Definition resolve (cwd p : string) : string :=
  let r1 := if bool_decide (p = "") then "" else p +:+ "/" in
  let '(r2, isAbs) :=
    if isAbsolute p then (r1, true)
    else if bool_decide (cwd = "") then (r1, false)
    else (cwd +:+ "/" +:+ r1, isAbsolute cwd) in
  let q := normalizeString r2 (negb isAbs) in
  if isAbs then "/" +:+ q
  else if bool_decide (q = "") then "." else q.

End Path.

(** ** Data model *)

(** A row of the [__migrations] table ([@typedef Migration]).  The column
    [applied_at] is written by its default and never read by the library. *)
Module Migration.
Record t := mk { name : string; checksum : string; round : Z }.
End Migration.

(** [@typedef MigrationFile] *)
Module MigrationFile.
Record t := mk { name : string; path : string; checksum : string }.
End MigrationFile.

(** A table other than the ledger, as [pg_tables] names it, with its rows. *)
Record Table := {
  schemaname : string;
  tablename : string;
  tablerows : list (list string)
}.

(** The database of one connection.  [ledger] is the table [__migrations]:
    the schema it lives in and its rows in insertion order, or [None] when
    the table does not exist. *)
Record Database := {
  search_path : string;
  session_user : string;
  current_schema : string;
  ledger : option (string * list Migration.t);
  tables : list Table
}.

(** The file system of the process: directories (with their listing, in the
    order [readdir] returns it) and regular files, by absolute path. *)
Record FileSystem := {
  cwd : string;
  dirs : gmap string (list string);
  files : gmap string string
}.

(** The collaborators the library consumes as opaque capabilities: what a
    migration script does to the tables of the database (or the message of
    the error it fails with), the SHA-256 digest in hexadecimal, and what
    the database answers to [DROP TABLE schema.table CASCADE] among the
    tables that exist, named as [pg_tables] names them: the message of the
    error it rejects the statement with (the table belongs to another role,
    say), or the tables that depend on this one (children by inheritance,
    partitions) and go with it. *)
Class Collaborators := {
  execSql : string -> list Table -> string + list Table;
  sha256hex : string -> string;
  dropCascade : string -> string -> list (string * string) -> string + list (string * string)
}.

(** ** Effects *)

Inductive Statement :=
| Begin (options : string)
| Commit
| Rollback
| CreateMigrationsTable
| LockMigrationsTable
| SelectMigrations
| RunFile (path : string)
| InsertMigration (name checksum : string) (round : Z)
| ShowSearchPath
| SelectUser
| SelectTables (schemas : list string)
| DropTable (schema table : string).

Inductive Event :=
| Sql (s : Statement)
| SqlFailed (s : Statement) (message : string)
| Prompt (message : string) (answer : bool)
| ConsoleLog (args : list string)
| ConsoleError (args : list string)
| Mkdir (path : string)
| WriteFile (path content : string).

Inductive ErrorKind := PlainError | TypeError | SystemError | PostgresError.

Record Exception := { kind : ErrorKind; message : string }.

Record World := {
  fs : FileSystem;
  db : Database;
  trace : list Event
}.

Definition withDb (d : Database) (w : World) : World :=
  {| fs := fs w; db := d; trace := trace w |}.

Definition withFs (f : FileSystem) (w : World) : World :=
  {| fs := f; db := db w; trace := trace w |}.

Definition emit (e : Event) (w : World) : World :=
  {| fs := fs w; db := db w; trace := trace w ++ [e] |}.

(** An asynchronous computation: it runs in a world and either throws or
    returns, in a new world. *)
Definition M (A : Type) : Type := World -> (Exception + A) * World.

Definition ret {A} (a : A) : M A := fun w => (inr a, w).

Definition bind {A B} (m : M A) (k : A -> M B) : M B :=
  fun w => match m w with
           | (inr a, w') => k a w'
           | (inl e, w') => (inl e, w')
           end.

Definition throw {A} (e : Exception) : M A := fun w => (inl e, w).

Definition tryCatch {A} (body : M A) (handler : Exception -> M A) : M A :=
  fun w => match body w with
           | (inr a, w') => (inr a, w')
           | (inl e, w') => handler e w'
           end.

Definition log (e : Event) : M unit := fun w => (inr tt, emit e w).

Definition getFs : M FileSystem := fun w => (inr (fs w), w).

Declare Scope js_scope.
Delimit Scope js_scope with js.
Notation "x <- m ;; k" := (bind m (fun x => k))
  (at level 100, m at next level, right associativity) : js_scope.
Notation "m ;;; k" := (bind m (fun _ => k))
  (at level 100, right associativity) : js_scope.
Local Open Scope js_scope.

(** [for (const x of l) await body(x)] *)
Fixpoint forOf {A} (l : list A) (body : A -> M unit) : M unit :=
  match l with
  | [] => ret tt
  | x :: l' => body x ;;; forOf l' body
  end.

(** One statement sent to the database: [run d] is its result and the new
    database, or the message of the error. *)
Definition query {A} (s : Statement) (run : Database -> string + (A * Database)) : M A :=
  fun w => match run (db w) with
           | inr (a, d) => (inr a, emit (Sql s) (withDb d w))
           | inl msg => (inl {| kind := PostgresError; message := msg |},
                         emit (SqlFailed s msg) w)
           end.

(** [sql.begin(options, body)]: the body runs in a transaction, committed
    when it returns and rolled back when it throws. *)
Definition begin {A} (options : string) (body : M A) : M A :=
  fun w => match body (emit (Sql (Begin options)) w) with
           | (inr a, w') => (inr a, emit (Sql Commit) w')
           | (inl e, w') => (inl e, emit (Sql Rollback) (withDb (db w) w'))
           end.

(** ** File system calls *)

(** [fs.readdir(p)]: the listing of the directory, in the order the system
    returns it; the empty path names no directory. *)
Definition readdir (f : FileSystem) (p : string) : option (list string) :=
  if bool_decide (p = "") then None else dirs f !! Path.resolve (cwd f) p.

Definition readFile (f : FileSystem) (p : string) : option string :=
  files f !! Path.resolve (cwd f) p.

Definition segments (p : string) : list string :=
  List.filter (fun s => negb (bool_decide (s = ""))) (Js.split "/" p).

Definition addEntry (dir entry : string) (f : FileSystem) : FileSystem :=
  {| cwd := cwd f;
     dirs := alter (fun l => if bool_decide (entry ∈ l) then l else l ++ [entry]) dir (dirs f);
     files := files f |}.

Definition child (parent seg : string) : string :=
  if bool_decide (parent = "/") then "/" +:+ seg else parent +:+ "/" +:+ seg.

Fixpoint mkdirFrom (parent : string) (segs : list string) (f : FileSystem)
    : option FileSystem :=
  match segs with
  | [] => Some f
  | seg :: rest =>
      let p := child parent seg in
      match files f !! p, dirs f !! p with
      | Some _, _ => None
      | None, Some _ => mkdirFrom p rest f
      | None, None =>
          mkdirFrom p rest
            (addEntry parent seg
               {| cwd := cwd f; dirs := <[p := []]> (dirs f); files := files f |})
      end
  end.

(** [fs.mkdir(p, { recursive: true })] *)
Definition mkdirRecursive (p : string) (f : FileSystem) : option FileSystem :=
  mkdirFrom "/" (segments (Path.resolve (cwd f) p)) f.

(** [fs.writeFile(p, content)] *)
Definition writeFile (p content : string) (f : FileSystem) : option FileSystem :=
  let target := Path.resolve (cwd f) p in
  match reverse (segments target) with
  | [] => None
  | base :: parents =>
      let dir := "/" +:+ Js.join "/" (reverse parents) in
      match dirs f !! dir, dirs f !! target with
      | Some _, None =>
          Some (addEntry dir base
                  {| cwd := cwd f; dirs := dirs f; files := <[target := content]> (files f) |})
      | _, _ => None
      end
  end.

Definition systemError {A} (syscall p : string) : M A :=
  throw {| kind := SystemError; message := syscall +:+ " '" +:+ p +:+ "' failed" |}.

Definition fsReaddir (p : string) : M (list string) :=
  fun w => match readdir (fs w) p with
           | Some l => (inr l, w)
           | None => systemError "scandir" p w
           end.

Definition fsMkdir (p : string) : M unit :=
  fun w => match mkdirRecursive p (fs w) with
           | Some f => (inr tt, emit (Mkdir p) (withFs f w))
           | None => systemError "mkdir" p w
           end.

Definition fsWriteFile (p content : string) : M unit :=
  fun w => match writeFile p content (fs w) with
           | Some f => (inr tt, emit (WriteFile p content) (withFs f w))
           | None => systemError "open" p w
           end.

(** ** The library *)

Section Library.

Context `{Collaborators}.

(** [generateMigration]: the name of the file, for the clock reading [now]. *)
Definition migrationFileName (now : Js.Date) (name : string) : string :=
  let timestamp := Js.slice0 14 (Js.replaceAll Js.notDigit "" (Js.toISOString now)) in
  timestamp +:+ "_" +:+
  Js.replaceAll Js.isWhitespace "_"
    (Js.replaceAll Js.notSpaceLowerDigit "" (Js.toLowerCase name)) +:+
  ".sql".

Definition migrationTemplate : string := "-- Write your migration here" +:+ Js.newline.

Definition generateMigration (now : Js.Date) (name baseDir : string) : M unit :=
  f <- getFs ;;
  let targetDir := Path.resolve (cwd f) baseDir in
  let fileName := migrationFileName now name in
  fsMkdir targetDir ;;;
  fsWriteFile (Path.join targetDir fileName) migrationTemplate ;;;
  log (ConsoleLog ["Created"; Path.join baseDir fileName]).

(** [computeChecksum] *)
Definition computeChecksum (p : string) : M string :=
  fun w => match readFile (fs w) p with
           | Some content => (inr (sha256hex content), w)
           | None => systemError "open" p w
           end.

(** The loop of [getMigrationFiles]; [result] is the array built so far. *)
Fixpoint collectMigrationFiles (baseDir : string) (listing : list string)
    (result : list MigrationFile.t) : M (list MigrationFile.t) :=
  match listing with
  | [] => ret result
  | file :: rest =>
      if Js.endsWith ".sql" file then
        let filePath := Path.join baseDir file in
        sum <- computeChecksum filePath ;;
        collectMigrationFiles baseDir rest
          (result ++ [MigrationFile.mk file filePath sum])
      else collectMigrationFiles baseDir rest result
  end.

Definition getMigrationFiles (baseDir : string) : M (list MigrationFile.t) :=
  listing <- fsReaddir baseDir ;;
  collectMigrationFiles baseDir listing [].

Definition noLedger {A} : string + A :=
  inl ("relation " +:+ Js.dquote +:+ "__migrations" +:+ Js.dquote +:+ " does not exist").

Definition setLedger (l : option (string * list Migration.t)) (d : Database) : Database :=
  {| search_path := search_path d; session_user := session_user d;
     current_schema := current_schema d; ledger := l; tables := tables d |}.

Definition setTables (ts : list Table) (d : Database) : Database :=
  {| search_path := search_path d; session_user := session_user d;
     current_schema := current_schema d; ledger := ledger d; tables := ts |}.

(** [CREATE TABLE IF NOT EXISTS __migrations (...)] *)
Definition ensureMigrationsTableExists : M unit :=
  query CreateMigrationsTable (fun d =>
    match ledger d with
    | Some _ => inr (tt, d)
    | None => inr (tt, setLedger (Some (current_schema d, [])) d)
    end).

(** [LOCK TABLE __migrations IN EXCLUSIVE MODE] *)
Definition lockMigrationsTable : M unit :=
  query LockMigrationsTable (fun d =>
    match ledger d with
    | Some _ => inr (tt, d)
    | None => noLedger
    end).

(** [ORDER BY round ASC, name ASC]; names compare by code units. *)
Definition rowLe (a b : Migration.t) : Prop :=
  Migration.round a < Migration.round b \/
  (Migration.round a = Migration.round b /\
   String.le (Migration.name a) (Migration.name b)).

#[global] Instance rowLe_dec : RelDecision rowLe.
Proof. intros a b. unfold rowLe. apply _. Defined.

(** [SELECT * FROM __migrations ORDER BY round ASC, name ASC] *)
Definition getMigrations : M (list Migration.t) :=
  query SelectMigrations (fun d =>
    match ledger d with
    | Some (_, rows) => inr (merge_sort rowLe rows, d)
    | None => noLedger
    end).

Definition intMin : Z := -2147483648.
Definition intMax : Z := 2147483647.

(** [sql.file(path)] *)
Definition sqlFile (p : string) : M unit :=
  f <- getFs ;;
  match readFile f p with
  | None => systemError "open" p
  | Some content =>
      query (RunFile p) (fun d =>
        match execSql content (tables d) with
        | inl msg => inl msg
        | inr ts => inr (tt, setTables ts d)
        end)
  end.

(** [INSERT INTO __migrations (name, checksum, round) VALUES (...)]:
    [name] is the primary key and [round] an [INT]. *)
Definition insertMigration (name checksum : string) (round : Z) : M unit :=
  query (InsertMigration name checksum round) (fun d =>
    match ledger d with
    | None => noLedger
    | Some (s, rows) =>
        if bool_decide (name ∈ map Migration.name rows) then
          inl "duplicate key value violates unique constraint"
        else if bool_decide (intMin <= round <= intMax) then
          inr (tt, setLedger (Some (s, rows ++ [Migration.mk name checksum round])) d)
        else inl "integer out of range"
    end).

Definition applyMigration (migration : MigrationFile.t) (round : Z) : M unit :=
  sqlFile (MigrationFile.path migration) ;;;
  insertMigration (MigrationFile.name migration) (MigrationFile.checksum migration) round.

Definition checksumMismatch (name : string) : Exception :=
  {| kind := PlainError;
     message := "Checksum mismatch for migration " +:+ Js.dquote +:+ name +:+ Js.dquote |}.

Definition undefinedChecksum : Exception :=
  {| kind := TypeError;
     message := "Cannot read properties of undefined (reading 'checksum')" |}.

(** The body of the loop that checks the applied migrations:
    [migrationFile] is [migrationFilesLookup[migration.name]], and
    [migration.checksum !== migrationFile.checksum] reads a property of it. *)
Definition checkChecksum (migrationFilesLookup : gmap string MigrationFile.t)
    (migration : Migration.t) : M unit :=
  match JsObject.get migrationFilesLookup (Migration.name migration) with
  | JsObject.Own migrationFile =>
      if bool_decide (Migration.checksum migration <> MigrationFile.checksum migrationFile)
      then throw (checksumMismatch (Migration.name migration))
      else ret tt
  | JsObject.Inherited => throw (checksumMismatch (Migration.name migration))
  | JsObject.Undefined => throw undefinedChecksum
  end.

(** [migrationFiles.filter((migration) => !migrationsLookup[migration.name])] *)
Definition pendingOf (migrationsLookup : gmap string Migration.t)
    (migrationFiles : list MigrationFile.t) : list MigrationFile.t :=
  List.filter
    (fun migration =>
       JsObject.isFalsy (JsObject.get migrationsLookup (MigrationFile.name migration)))
    migrationFiles.

(** [migrations.at(-1)?.round ?? 0] *)
Definition lastRound (migrations : list Migration.t) : Z :=
  match last migrations with
  | Some lastMigration => Migration.round lastMigration
  | None => 0
  end.

(** The callback of [sql.begin] in [applyMigrations]. *)
Definition applyTransaction (migrationFiles : list MigrationFile.t)
    (migrationFilesLookup : gmap string MigrationFile.t) : M nat :=
  ensureMigrationsTableExists ;;;
  lockMigrationsTable ;;;
  migrations <- getMigrations ;;
  let migrationsLookup :=
    JsObject.fromEntries (map (fun m => (Migration.name m, m)) migrations) in
  let pendingMigrations := pendingOf migrationsLookup migrationFiles in
  let round := lastRound migrations + 1 in
  forOf migrations (checkChecksum migrationFilesLookup) ;;;
  forOf pendingMigrations (fun migration => applyMigration migration round) ;;;
  ret (length pendingMigrations).

Definition serializable : string := "ISOLATION LEVEL SERIALIZABLE".

Definition applyMigrations (baseDir : string) : M bool :=
  tryCatch
    (migrationFiles <- getMigrationFiles baseDir ;;
     let migrationFilesLookup :=
       JsObject.fromEntries (map (fun m => (MigrationFile.name m, m)) migrationFiles) in
     appliedCount <- begin serializable (applyTransaction migrationFiles migrationFilesLookup) ;;
     log (ConsoleLog ["Applied"; pretty appliedCount +:+ " migrations"]) ;;;
     ret true)
    (fun error =>
       log (ConsoleError ["Failed"; message error]) ;;;
       ret false).

Definition confirmMessage : string :=
  "Are you sure you want to reset the database? This will drop all tables and re-apply all migrations.".

Definition userPlaceholder : string := Js.dquote +:+ "$user" +:+ Js.dquote.

(** [search_path.split(",").map(...)] *)
Definition resolveSchemas (searchPath username : string) : list string :=
  map (fun s =>
         let trimmed := Js.trim s in
         if bool_decide (trimmed = userPlaceholder) then username else trimmed)
      (Js.split "," searchPath).

Definition ledgerTable : string := "__migrations".

(** The view [pg_tables], as pairs of [schemaname] and [tablename]. *)
Definition pgTables (d : Database) : list (string * string) :=
  map (fun t => (schemaname t, tablename t)) (tables d) ++
  match ledger d with
  | Some (s, _) => [(s, ledgerTable)]
  | None => []
  end.

(** The database once the tables named in [gone] are removed. *)
Definition without (gone : list (string * string)) (d : Database) : Database :=
  setLedger
    match ledger d with
    | Some (s, rows) =>
        if bool_decide ((s, ledgerTable) ∈ gone) then None else Some (s, rows)
    | None => None
    end
    (setTables
       (List.filter
          (fun t => negb (bool_decide ((schemaname t, tablename t) ∈ gone)))
          (tables d))
       d).

(** [DROP TABLE IF EXISTS schema.table CASCADE]: nothing happens when the
    table does not exist (any more); the statement fails when the
    database rejects it; otherwise the table goes, and with it the tables
    that depend on it. *)
Definition dropTable (schema table : string) : M unit :=
  query (DropTable schema table) (fun d =>
    if bool_decide ((schema, table) ∈ pgTables d) then
      match dropCascade schema table (pgTables d) with
      | inl msg => inl msg
      | inr dependents => inr (tt, without ((schema, table) :: dependents) d)
      end
    else inr (tt, d)).

(** The callback of [sql.begin] in [resetDatabase]. *)
Definition dropTransaction : M unit :=
  searchPath <- query ShowSearchPath (fun d => inr (search_path d, d)) ;;
  username <- query SelectUser (fun d => inr (session_user d, d)) ;;
  let schemas := resolveSchemas searchPath username in
  found <- query (SelectTables schemas) (fun d =>
             inr (List.filter (fun t => bool_decide (t.1 ∈ schemas)) (pgTables d), d)) ;;
  forOf found (fun table => dropTable table.1 table.2).

(** [answer] is the reply of the user to the confirmation prompt, should
    the prompt be shown. *)
Definition resetDatabase (baseDir : string) (force : bool) (answer : bool) : M bool :=
  aborted <-
    (if negb force then
       log (Prompt confirmMessage answer) ;;;
       if negb answer then
         log (ConsoleLog ["Aborted"]) ;;; ret true
       else ret false
     else ret false) ;;
  if (aborted : bool) then ret false
  else
    tryCatch
      (begin "" dropTransaction ;;;
       log (ConsoleLog ["Reset"; "Tables dropped"]) ;;;
       applyMigrations baseDir)
      (fun error =>
         log (ConsoleError ["Failed"; message error]) ;;;
         ret false).

End Library.

(** ** Specification-side definitions *)

Definition ledgerRows (d : Database) : list Migration.t :=
  match ledger d with
  | Some (_, rows) => rows
  | None => []
  end.

(** The largest round of a ledger. *)
Fixpoint maxRound (rows : list Migration.t) : option Z :=
  match rows with
  | [] => None
  | m :: rows' =>
      match maxRound rows' with
      | None => Some (Migration.round m)
      | Some r => Some (Z.max (Migration.round m) r)
      end
  end.

(** "(max existing round) + 1, or 1 if the ledger is empty" *)
Definition nextRound (rows : list Migration.t) : Z :=
  match maxRound rows with
  | Some r => r + 1
  | None => 1
  end.

Definition newEvents (w w' : World) : list Event :=
  drop (length (trace w)) (trace w').

(** The file the catalog holds under a name, as the lookup object built by
    [applyMigrations] answers. *)
Definition catalogFile (catalog : list MigrationFile.t) (name : string)
    : option MigrationFile.t :=
  JsObject.fromEntries (map (fun m => (MigrationFile.name m, m)) catalog) !! name.

(** What the integrity check throws on one ledger row, if anything. *)
Definition checkFailure (lookup : gmap string MigrationFile.t) (m : Migration.t)
    : option Exception :=
  match JsObject.get lookup (Migration.name m) with
  | JsObject.Own f =>
      if bool_decide (Migration.checksum m <> MigrationFile.checksum f)
      then Some (checksumMismatch (Migration.name m)) else None
  | JsObject.Inherited => Some (checksumMismatch (Migration.name m))
  | JsObject.Undefined => Some undefinedChecksum
  end.

Fixpoint firstFailure (lookup : gmap string MigrationFile.t) (ms : list Migration.t)
    : option Exception :=
  match ms with
  | [] => None
  | m :: ms' =>
      match checkFailure lookup m with
      | Some e => Some e
      | None => firstFailure lookup ms'
      end
  end.

Definition toRow (round : Z) (f : MigrationFile.t) : Migration.t :=
  Migration.mk (MigrationFile.name f) (MigrationFile.checksum f) round.

Definition statementsOf (round : Z) (f : MigrationFile.t) : list Event :=
  [Sql (RunFile (MigrationFile.path f));
   Sql (InsertMigration (MigrationFile.name f) (MigrationFile.checksum f) round)].

(** The scripts sent to the database, in the order of the trace. *)
Definition executedFiles (evs : list Event) : list string :=
  omap (fun e => match e with
                 | Sql (RunFile p) | SqlFailed (RunFile p) _ => Some p
                 | _ => None
                 end) evs.

(** The ledger table, created if it was missing. *)
Definition ensured (d : Database) : string * list Migration.t :=
  match ledger d with
  | Some l => l
  | None => (current_schema d, [])
  end.

Definition lookupOf (catalog : list MigrationFile.t) : gmap string MigrationFile.t :=
  JsObject.fromEntries (map (fun m => (MigrationFile.name m, m)) catalog).

(** The pending migrations of a catalog against the rows of a ledger. *)
Definition pendingFiles (catalog : list MigrationFile.t) (rows : list Migration.t)
    : list MigrationFile.t :=
  pendingOf
    (JsObject.fromEntries (map (fun m => (Migration.name m, m)) (merge_sort rowLe rows)))
    catalog.

(** The catalog entry [getMigrationFiles] builds for one file of the listing. *)
Definition entryOf `{Collaborators} (f : FileSystem) (baseDir file : string)
    : MigrationFile.t :=
  MigrationFile.mk file (Path.join baseDir file)
    (sha256hex (default "" (readFile f (Path.join baseDir file)))).

Definition headEvents : list Event :=
  [Sql CreateMigrationsTable; Sql LockMigrationsTable; Sql SelectMigrations].

(** The name part of a generated file in the words of the specification:
    the name lowercased, every character other than lowercase letters,
    digits and spaces removed, each whitespace character replaced by an
    underscore. *)
Definition specNamePart (name : string) : string :=
  string_of_list_ascii
    (map (fun c => if Js.isWhitespace c then "_"%char else c)
       (List.filter (fun c => Js.isLowerAZ c || Js.isDigit c || Js.isSpaceChar c)
          (list_ascii_of_string (Js.toLowerCase name)))).

(** A letter of the basic Latin alphabet, a digit or a space. *)
Definition isLetterDigitSpace (c : ascii) : bool :=
  Js.isUpperAZ c || Js.isLowerAZ c || Js.isDigit c || Js.isSpaceChar c.

(** The values an asynchronous function can resolve to, as far as
    [applyMigrations] is concerned. *)
Inductive JsValue :=
| JsBoolean (b : bool)
| JsNumber (n : Z).

Definition resolvedValue (r : Exception + bool) : option JsValue :=
  match r with
  | inr b => Some (JsBoolean b)
  | inl _ => None
  end.

(** ** A concrete installation

    Scripts and databases small enough to evaluate the library on: a script
    whose text starts with FAIL is rejected by the database, any other
    script creates a table named by its text; the digest is a stand-in that
    keeps the content readable.  A table named audit_log belongs to another
    role and cannot be dropped; a table named events has a partition in the
    schema archive; no other table has dependents. *)

Module Scenario.

Definition engine : Collaborators := {|
  execSql content ts :=
    if Js.startsWith "FAIL" content then inl "syntax error"
    else inr (ts ++ [{| schemaname := "public"; tablename := content; tablerows := [] |}]);
  sha256hex content := "sha256:" +:+ content;
  dropCascade schema table names :=
    if bool_decide (table = "audit_log") then inl "must be owner of table audit_log"
    else if bool_decide (table = "events") then inr [("archive", "events_2023")]
    else inr []
|}.

Definition initSql : string := "20230101000000_init.sql".
Definition usersSql : string := "20230102000000_add_users.sql".
Definition indexSql : string := "20230103000000_add_index.sql".

Definition inDir (file : string) : string := "/home/app/migrations/" +:+ file.

Definition mkFs (listing : list string) (contents : list (string * string)) : FileSystem :=
  {| cwd := "/home/app";
     dirs := list_to_map [("/", ["home"]); ("/home", ["app"]);
                          ("/home/app", ["migrations"]);
                          ("/home/app/migrations", listing)];
     files := list_to_map (map (fun fc => (inDir fc.1, fc.2)) contents) |}.

Definition mkDb (l : option (string * list Migration.t)) (ts : list Table) : Database :=
  {| search_path := Js.dquote +:+ "$user" +:+ Js.dquote +:+ ", public";
     session_user := "alice";
     current_schema := "public";
     ledger := l;
     tables := ts |}.

Definition mkWorld (f : FileSystem) (d : Database) : World :=
  {| fs := f; db := d; trace := [] |}.

Definition userTables : list Table :=
  [{| schemaname := "public"; tablename := "notes"; tablerows := [["hello"]] |};
   {| schemaname := "archive"; tablename := "old_notes"; tablerows := [] |}].

Definition initRow : Migration.t := Migration.mk initSql "sha256:init" 1.
Definition usersRow : Migration.t := Migration.mk usersSql "sha256:users" 1.

(** Two scripts, listed by the directory in an order that is not the
    order of their names, and a file that is not a script. *)
Definition twoScripts : FileSystem :=
  mkFs [usersSql; "README.md"; initSql]
       [(initSql, "init"); (usersSql, "users"); ("README.md", "notes")].

(** The scripts of the specification's scenario, listed by name. *)
Definition twoSorted : FileSystem :=
  mkFs [initSql; usersSql] [(initSql, "init"); (usersSql, "users")].

Definition threeSorted : FileSystem :=
  mkFs [initSql; usersSql; indexSql]
       [(initSql, "init"); (usersSql, "users"); (indexSql, "index")].

(** The second script was edited after it was applied. *)
Definition edited : FileSystem :=
  mkFs [initSql; usersSql] [(initSql, "init"); (usersSql, "users, edited")].

(** The first script was deleted after it was applied. *)
Definition deleted : FileSystem :=
  mkFs [usersSql] [(usersSql, "users")].

(** The first script was deleted and the second edited. *)
Definition deletedAndEdited : FileSystem :=
  mkFs [usersSql] [(usersSql, "users, edited")].

(** The second script is rejected by the database. *)
Definition broken : FileSystem :=
  mkFs [initSql; usersSql] [(initSql, "init"); (usersSql, "FAIL users")].

Definition fresh : Database := mkDb None userTables.

Definition migrated : Database :=
  mkDb (Some ("public", [initRow; usersRow])) userTables.

Definition dir : string := "./migrations".

(** The catalog entry of a script with the given content. *)
Definition fileOf (file content : string) : MigrationFile.t :=
  MigrationFile.mk file ("migrations/" +:+ file) ("sha256:" +:+ content).

Definition sampleDate : Js.Date :=
  {| Js.utcFullYear := 2023; Js.utcMonth := 9; Js.utcDate := 25;
     Js.utcHours := 19; Js.utcMinutes := 42; Js.utcSeconds := 0;
     Js.utcMilliseconds := 0 |}.

End Scenario.

#[local] Existing Instance Scenario.engine.

(** ** Further specification-side definitions *)

(** The scripts of a batch run one after the other on the tables of the
    database: the tables after the last one, or [None] when a file cannot be
    read or a script is rejected. *)
Fixpoint runScripts `{Collaborators} (f : FileSystem) (paths : list string)
    (ts : list Table) : option (list Table) :=
  match paths with
  | [] => Some ts
  | p :: rest =>
      match readFile f p with
      | None => None
      | Some content =>
          match execSql content ts with
          | inl _ => None
          | inr ts' => runScripts f rest ts'
          end
      end
  end.

(** The world in which the loops of [applyMigrations] start: the ledger
    table exists and the three statements that precede them were sent. *)
Definition headWorld (w : World) : World :=
  {| fs := fs w;
     db := match ledger (db w) with
           | Some _ => db w
           | None => setLedger (Some (current_schema (db w), [])) (db w)
           end;
     trace := ((trace w ++ [Sql CreateMigrationsTable]) ++ [Sql LockMigrationsTable]) ++
              [Sql SelectMigrations] |}.

(** Rounds do not decrease along a list of rows. *)
Definition roundLe (a b : Migration.t) : Prop :=
  Migration.round a <= Migration.round b.

(** A date of the years 0 to 9999, whose ISO form has a four-digit year. *)
Definition fourDigitYear (d : Js.Date) : Prop :=
  0 <= Js.utcFullYear d <= 9999 /\
  0 <= Js.utcMonth d <= 11 /\
  1 <= Js.utcDate d <= 31 /\
  0 <= Js.utcHours d <= 23 /\
  0 <= Js.utcMinutes d <= 59 /\
  0 <= Js.utcSeconds d <= 59.

(** [a] lies in an earlier second than [b]. *)
Definition earlierSecond (a b : Js.Date) : Prop :=
  Js.utcFullYear a < Js.utcFullYear b \/
  (Js.utcFullYear a = Js.utcFullYear b /\
   (Js.utcMonth a < Js.utcMonth b \/
    (Js.utcMonth a = Js.utcMonth b /\
     (Js.utcDate a < Js.utcDate b \/
      (Js.utcDate a = Js.utcDate b /\
       (Js.utcHours a < Js.utcHours b \/
        (Js.utcHours a = Js.utcHours b /\
         (Js.utcMinutes a < Js.utcMinutes b \/
          (Js.utcMinutes a = Js.utcMinutes b /\
           Js.utcSeconds a < Js.utcSeconds b))))))))).

(** The characters of a generated file name. *)
Definition isFileNameChar (c : ascii) : bool :=
  Js.isLowerAZ c || Js.isDigit c || (Js.code c =? 95)%N || (Js.code c =? 46)%N.

(** ** The command line ([bin/index.js])

    The handlers of the three commands, applied to the parsed arguments.
    Besides calling the library they prompt for a missing name, open and
    end the database connection and set the exit status. *)

Inductive Action :=
| Input (message answer : string)
| Connect
| EndConnection
| Exit (code : Z).

Record Process := {
  world : World;
  actions : list Action
}.

Definition act (a : Action) (p : Process) : Process :=
  {| world := world p; actions := actions p ++ [a] |}.

(** A call of the library from a handler. *)
Definition await {A} (m : M A) (p : Process) : (Exception + A) * Process :=
  match m (world p) with
  | (r, w) => (r, {| world := w; actions := actions p |})
  end.

(** What makes the catalog unreadable: the directory cannot be listed, or
    an entry with the .sql extension cannot be read. *)
Definition catalogUnreadable (f : FileSystem) (baseDir : string) : Prop :=
  readdir f baseDir = None \/
  exists listing file,
    readdir f baseDir = Some listing /\ file ∈ listing /\
    Js.endsWith ".sql" file = true /\
    readFile f (Path.join baseDir file) = None.

Section Commands.

Context `{Collaborators}.

(** [generate [name]]: [name] is [None] when [argv.name] is not a string;
    [answer] is what the user types at the prompt, should it be shown. *)
Definition generateCommand (now : Js.Date) (name : option string) (dir : string)
    (answer : string) (p : Process) : (Exception + unit) * Process :=
  match name with
  | Some name => await (generateMigration now name dir) p
  | None =>
      await (generateMigration now answer dir)
        (act (Input "Name of the migration" answer) p)
  end.

(** [apply] *)
Definition applyCommand (dir : string) (p : Process) : (Exception + unit) * Process :=
  match await (applyMigrations dir) (act Connect p) with
  | (inl e, p') => (inl e, p')
  | (inr result, p') =>
      if negb result then (inr tt, act (Exit 1) (act EndConnection p'))
      else (inr tt, act EndConnection p')
  end.

(** [reset] *)
Definition resetCommand (dir : string) (force answer : bool) (p : Process)
    : (Exception + unit) * Process :=
  match await (resetDatabase dir force answer) (act Connect p) with
  | (inl e, p') => (inl e, p')
  | (inr _, p') => (inr tt, act EndConnection p')
  end.

End Commands.

(** The exit status of a process whose handler returned: the code of
    [process.exit], or 0. *)
Definition exitStatus (p : Process) : Z :=
  match last (omap (fun a => match a with Exit c => Some c | _ => None end) (actions p)) with
  | Some c => c
  | None => 0
  end.

(** ** More installations *)

Module Cases.

(** A regular file stands where the migrations directory should be. *)
Definition blocked : FileSystem :=
  {| cwd := "/home/app";
     dirs := list_to_map [("/", ["home"]); ("/home", ["app"]); ("/home/app", ["migrations"])];
     files := list_to_map [("/home/app/migrations", "not a directory")] |}.

(** The directory holds an entry with the .sql extension that is not a
    readable file. *)
Definition unreadable : FileSystem :=
  Scenario.mkFs [Scenario.initSql; "broken.sql"] [(Scenario.initSql, "init")].


(** One of the tables of the search path belongs to another role. *)
Definition guarded : Database :=
  Scenario.mkDb (Some ("public", [Scenario.initRow; Scenario.usersRow]))
    [{| schemaname := "public"; tablename := "notes"; tablerows := [["hello"]] |};
     {| schemaname := "public"; tablename := "audit_log"; tablerows := [["login"]] |}].

(** A table of the search path has a partition in another schema. *)
Definition partitioned : Database :=
  Scenario.mkDb None
    [{| schemaname := "public"; tablename := "events"; tablerows := [] |};
     {| schemaname := "archive"; tablename := "events_2023"; tablerows := [["e"]] |};
     {| schemaname := "archive"; tablename := "old_notes"; tablerows := [] |}].

Definition start (f : FileSystem) (d : Database) : Process :=
  {| world := Scenario.mkWorld f d; actions := [] |}.

Definition laterDate : Js.Date :=
  {| Js.utcFullYear := 2023; Js.utcMonth := 10; Js.utcDate := 2;
     Js.utcHours := 8; Js.utcMinutes := 0; Js.utcSeconds := 59;
     Js.utcMilliseconds := 0 |}.

End Cases.

(** * Properties *)

(** ** Sanity checks of the string and path functions *)

Example split_example :
  Js.split "," "a, b,,c" = ["a"; " b"; ""; "c"].
Proof. reflexivity. Qed.

Example iso_example :
  Js.toISOString {| Js.utcFullYear := 2023; Js.utcMonth := 9; Js.utcDate := 25;
                    Js.utcHours := 19; Js.utcMinutes := 42; Js.utcSeconds := 0;
                    Js.utcMilliseconds := 0 |} = "2023-10-25T19:42:00.000Z".
Proof. reflexivity. Qed.

Example trim_example : Js.trim "  public " = "public".
Proof. reflexivity. Qed.

Example lower_example : Js.toLowerCase "Add Users!" = "add users!".
Proof. reflexivity. Qed.

Example join_example : Path.join "./migrations" "a.sql" = "migrations/a.sql".
Proof. reflexivity. Qed.

Example join_example_abs : Path.join "/srv/app/../db/" "a.sql" = "/srv/db/a.sql".
Proof. reflexivity. Qed.

Example resolve_example : Path.resolve "/home/app" "./migrations" = "/home/app/migrations".
Proof. reflexivity. Qed.

Example resolve_example_abs : Path.resolve "/home/app" "/var/m/" = "/var/m".
Proof. reflexivity. Qed.

(** ** The ledger in read order *)

Section Sorting.

#[global] Instance rowLe_total : Total rowLe.
Proof.
  intros a b. unfold rowLe.
  destruct (Z.lt_trichotomy (Migration.round a) (Migration.round b)) as [?|[E|?]]; auto.
  destruct (total String.le (Migration.name a) (Migration.name b)); auto.
Qed.

#[global] Instance rowLe_trans : Transitive rowLe.
Proof.
  intros a b c [?|[E1 L1]] [?|[E2 L2]]; unfold rowLe; try (left; lia).
  right. split; [lia|]. by etrans.
Qed.

Lemma rowLe_round a b : rowLe a b -> Migration.round a <= Migration.round b.
Proof. intros [?|[? _]]; lia. Qed.

Lemma maxRound_None rows : maxRound rows = None -> rows = [].
Proof. destruct rows as [|m rows]; [done|]. simpl. by destruct (maxRound rows). Qed.

Lemma maxRound_ge rows r m :
  maxRound rows = Some r -> m ∈ rows -> Migration.round m <= r.
Proof.
  revert r. induction rows as [|x rows IH]; intros r Hr Hm.
  - by apply elem_of_nil in Hm.
  - simpl in Hr. apply elem_of_cons in Hm.
    destruct (maxRound rows) as [r'|] eqn:E.
    + injection Hr as <-. destruct Hm as [->|Hm]; [lia|].
      specialize (IH r' eq_refl Hm). lia.
    + injection Hr as <-. destruct Hm as [->|Hm]; [lia|].
      apply maxRound_None in E. subst. by apply elem_of_nil in Hm.
Qed.

Lemma maxRound_elem rows r :
  maxRound rows = Some r -> exists m, m ∈ rows /\ Migration.round m = r.
Proof.
  revert r. induction rows as [|x rows IH]; intros r Hr; [done|].
  simpl in Hr. destruct (maxRound rows) as [r'|] eqn:E.
  - injection Hr as <-. destruct (IH r' eq_refl) as (m & Hm & Hmr).
    destruct (Z.max_spec (Migration.round x) r') as [[_ ->]|[_ ->]].
    + exists m. split; [by apply elem_of_cons; right|done].
    + exists x. split; [by apply elem_of_cons; left|done].
  - injection Hr as <-. exists x. split; [by apply elem_of_cons; left|done].
Qed.

(** The last row in read order carries the largest round. *)
Lemma lastRound_sorted rows :
  lastRound (merge_sort rowLe rows) + 1 = nextRound rows.
Proof.
  unfold lastRound, nextRound.
  pose proof (merge_sort_Permutation rowLe rows) as HP.
  pose proof (StronglySorted_merge_sort rowLe rows) as HS.
  destruct (last (merge_sort rowLe rows)) as [x|] eqn:EL.
  - apply last_Some in EL as [l' EL]. rewrite EL in HS, HP.
    assert (Hx : x ∈ rows) by (rewrite <- HP; set_solver).
    destruct (maxRound rows) as [r|] eqn:EM.
    + pose proof (maxRound_ge _ _ _ EM Hx).
      destruct (maxRound_elem _ _ EM) as (m & Hm & <-).
      rewrite <- HP in Hm. apply elem_of_app in Hm as [Hm|Hm].
      * assert (rowLe m x) as Hle%rowLe_round.
        { eapply StronglySorted_app_1_elem_of; [exact HS|exact Hm|set_solver]. }
        lia.
      * apply list_elem_of_singleton in Hm as ->. done.
    + apply maxRound_None in EM. subst. by apply elem_of_nil in Hx.
  - apply last_None in EL. rewrite EL in HP.
    apply Permutation_nil_l in HP. by subst.
Qed.

End Sorting.

(** ** Lookups and loops *)

Ltac munfold :=
  unfold bind, ret, throw, log, query, getFs, tryCatch, begin,
    systemError in *.

Section Lookup.

Context {V : Type}.

Lemma foldl_insert_None (l : list (string * V)) (o : gmap string V) k :
  foldl (fun o kv => <[kv.1 := kv.2]> o) o l !! k = None <->
  o !! k = None /\ k ∉ map fst l.
Proof.
  revert o. induction l as [|[k' v] l IH]; intros o; simpl.
  - split; [intros ?; split; [done|apply not_elem_of_nil]|by intros [? _]].
  - rewrite IH, lookup_insert_None, not_elem_of_cons. simpl. intuition congruence.
Qed.

Lemma fromEntries_None (l : list (string * V)) k :
  JsObject.fromEntries l !! k = None <-> k ∉ map fst l.
Proof.
  unfold JsObject.fromEntries. rewrite foldl_insert_None, lookup_empty. tauto.
Qed.

Lemma foldl_insert_Some (l : list (string * V)) (o : gmap string V) k v :
  foldl (fun o kv => <[kv.1 := kv.2]> o) o l !! k = Some v ->
  o !! k = Some v \/ (k, v) ∈ l.
Proof.
  revert o. induction l as [|[k' v'] l IH]; intros o; simpl; [by left|].
  intros Hi. apply IH in Hi as [Hi|Hi]; [|right; by apply elem_of_cons; right].
  apply lookup_insert_Some in Hi as [[E1 E2]|[_ ?]]; [right|by left].
  simpl in E1, E2. subst. apply elem_of_cons. by left.
Qed.

Lemma fromEntries_Some (l : list (string * V)) k v :
  JsObject.fromEntries l !! k = Some v -> (k, v) ∈ l.
Proof.
  intros Hi. apply foldl_insert_Some in Hi as [Hi|Hi]; [|done].
  by rewrite lookup_empty in Hi.
Qed.

End Lookup.

Lemma sql_not_prototype (k : string) :
  Js.endsWith ".sql" k = true -> k ∉ JsObject.prototypeKeys.
Proof.
  intros E Hk. unfold JsObject.prototypeKeys in Hk.
  repeat (apply elem_of_cons in Hk as [->|Hk]; [by vm_compute in E|]).
  by apply elem_of_nil in Hk.
Qed.

Lemma catalogFile_name catalog k f :
  catalogFile catalog k = Some f -> MigrationFile.name f = k /\ f ∈ catalog.
Proof.
  intros Hf%fromEntries_Some. apply list_elem_of_fmap in Hf as (g & Hg & Hin).
  injection Hg as -> ->. done.
Qed.

Section Loops.

Context `{Collaborators}.

Lemma pendingOf_spec (migrations : list Migration.t) catalog :
  pendingOf (JsObject.fromEntries (map (fun m => (Migration.name m, m)) migrations)) catalog =
  List.filter
    (fun f => bool_decide (MigrationFile.name f ∉ map Migration.name migrations) &&
              bool_decide (MigrationFile.name f ∉ JsObject.prototypeKeys))
    catalog.
Proof.
  unfold pendingOf. apply List.filter_ext. intros f. unfold JsObject.get.
  destruct (_ !! _) as [v|] eqn:E.
  - simpl. symmetry. apply andb_false_iff. left. apply bool_decide_eq_false.
    intros Hn. apply Hn. apply fromEntries_Some in E.
    apply list_elem_of_fmap in E as (m & Hm & Hin). injection Hm as -> ->.
    apply list_elem_of_fmap. eauto.
  - apply fromEntries_None in E. rewrite <- list_fmap_compose in E.
    assert (bool_decide (MigrationFile.name f ∉ map Migration.name migrations) = true) as ->.
    { apply bool_decide_eq_true. exact E. }
    simpl. by repeat case_bool_decide.
Qed.

Lemma forOf_check lookup ms w :
  forOf ms (checkChecksum lookup) w =
  (match firstFailure lookup ms with Some e => inl e | None => inr tt end, w).
Proof.
  induction ms as [|m ms IH]; [done|].
  simpl. unfold bind, checkChecksum, checkFailure.
  destruct (JsObject.get lookup (Migration.name m)); try done.
  case_bool_decide; [done|]. simpl. apply IH.
Qed.

Lemma applyMigration_cases f round w r w' :
  applyMigration f round w = (r, w') ->
  fs w' = fs w /\
  search_path (db w') = search_path (db w) /\
  session_user (db w') = session_user (db w) /\
  current_schema (db w') = current_schema (db w) /\
  match r with
  | inr _ =>
      trace w' = trace w ++ statementsOf round f /\
      forall s rows, ledger (db w) = Some (s, rows) ->
        ledger (db w') = Some (s, rows ++ [toRow round f])
  | inl e =>
      exists evs, trace w' = trace w ++ evs /\
        executedFiles evs `prefix_of` [MigrationFile.path f]
  end.
Proof.
  unfold applyMigration, sqlFile, insertMigration. munfold.
  destruct (readFile (fs w) (MigrationFile.path f)) as [content|].
  2:{ intros [= <- <-]. repeat split; try done. exists []. rewrite app_nil_r.
      split; [done|]. apply prefix_nil. }
  destruct (execSql content (tables (db w))) as [msg|ts]; simpl.
  { intros [= <- <-]. repeat split; try done.
    eexists. split; [done|]. by simpl. }
  destruct (ledger (db w)) as [[s rows]|] eqn:EL; simpl.
  2:{ intros [= <- <-]. repeat split; try done. eexists. simpl.
      rewrite <- app_assoc. split; [done|]. simpl. done. }
  case_bool_decide.
  { intros [= <- <-]. repeat split; try done. eexists. simpl.
    rewrite <- app_assoc. split; [done|]. simpl. done. }
  case_bool_decide.
  - intros [= <- <-]. simpl. repeat split; try done.
    + by rewrite <- app_assoc.
    + intros ?? [= <- <-]. done.
  - intros [= <- <-]. repeat split; try done. eexists. simpl.
    rewrite <- app_assoc. split; [done|]. simpl. done.
Qed.

Lemma forOf_apply_cases round pending w r w' :
  forOf pending (fun f => applyMigration f round) w = (r, w') ->
  fs w' = fs w /\
  search_path (db w') = search_path (db w) /\
  session_user (db w') = session_user (db w) /\
  current_schema (db w') = current_schema (db w) /\
  match r with
  | inr _ =>
      trace w' = trace w ++ flat_map (statementsOf round) pending /\
      forall s rows, ledger (db w) = Some (s, rows) ->
        ledger (db w') = Some (s, rows ++ map (toRow round) pending)
  | inl e =>
      exists evs, trace w' = trace w ++ evs /\
        executedFiles evs `prefix_of` map MigrationFile.path pending
  end.
Proof.
  revert w. induction pending as [|f pending IH]; intros w.
  - simpl. intros [= <- <-]. repeat split; try done.
    + by rewrite app_nil_r.
    + intros. by rewrite app_nil_r.
  - simpl. unfold bind at 1.
    destruct (applyMigration f round w) as [[e|[]] w1] eqn:E1;
      apply applyMigration_cases in E1 as (F1 & S1 & U1 & C1 & R1).
    + intros [= <- <-]. repeat split; try done.
      destruct R1 as (evs & T1 & P1). exists evs. split; [done|].
      etrans; [exact P1|]. by apply prefix_cons, prefix_nil.
    + intros E2. apply IH in E2 as (F2 & S2 & U2 & C2 & R2).
      destruct R1 as [T1 L1].
      repeat split; try congruence.
      destruct r as [e|[]].
      * destruct R2 as (evs & T2 & P2).
        exists (statementsOf round f ++ evs). split.
        { rewrite T2, T1. by rewrite app_assoc. }
        simpl. by apply prefix_cons.
      * destruct R2 as [T2 L2]. split.
        { rewrite T2, T1. by rewrite <- app_assoc. }
        intros s rows EL. rewrite (L2 s _ (L1 s rows EL)).
        by rewrite <- app_assoc.
Qed.

End Loops.

Section Apply.

Context `{Collaborators}.

Lemma applyTransaction_cases catalog lookup w r w' :
  applyTransaction catalog lookup w = (r, w') ->
  fs w' = fs w /\
  match firstFailure lookup (merge_sort rowLe (ensured (db w)).2) with
  | Some e => r = inl e /\ trace w' = trace w ++ headEvents
  | None =>
      let pending := pendingFiles catalog (ensured (db w)).2 in
      let round := nextRound (ensured (db w)).2 in
      match r with
      | inr n =>
          n = length pending /\
          trace w' = trace w ++ headEvents ++ flat_map (statementsOf round) pending /\
          ledger (db w') =
            Some ((ensured (db w)).1, (ensured (db w)).2 ++ map (toRow round) pending) /\
          search_path (db w') = search_path (db w) /\
          session_user (db w') = session_user (db w) /\
          current_schema (db w') = current_schema (db w)
      | inl e =>
          exists evs, trace w' = trace w ++ headEvents ++ evs /\
            executedFiles evs `prefix_of` map MigrationFile.path pending
      end
  end.
Proof.
  unfold applyTransaction, ensureMigrationsTableExists, lockMigrationsTable,
    getMigrations, pendingFiles, ensured.
  unfold bind at 1 2 3 4. unfold query.
  destruct (ledger (db w)) as [[s rows]|] eqn:EL; simpl; rewrite ?EL; simpl;
    rewrite ?EL; simpl.
  - rewrite forOf_check.
    destruct (firstFailure lookup (merge_sort rowLe rows)) as [e|].
    + intros [= <- <-]. simpl. by rewrite <- !app_assoc.
    + unfold bind, ret.
      rewrite lastRound_sorted.
      destruct (forOf _ _ _) as [[e|[]] w2] eqn:E2;
        apply forOf_apply_cases in E2 as (F2 & S2 & U2 & C2 & R2);
        simpl in *; intros [= <- <-].
      * split; [done|]. destruct R2 as (evs & T2 & P2). exists evs.
        split; [|done]. rewrite T2. by rewrite <- !app_assoc.
      * destruct R2 as [T2 L2]. repeat split; try done.
        -- rewrite T2. by rewrite <- !app_assoc.
        -- by apply L2.
  - unfold bind, ret. simpl.
    destruct (forOf _ _ _) as [[e|[]] w2] eqn:E2;
      apply forOf_apply_cases in E2 as (F2 & S2 & U2 & C2 & R2);
      simpl in *; intros [= <- <-].
    + split; [done|]. destruct R2 as (evs & T2 & P2). exists evs.
      split; [|done]. rewrite T2. by rewrite <- !app_assoc.
    + destruct R2 as [T2 L2]. repeat split; try done.
      * rewrite T2. by rewrite <- !app_assoc.
      * exact (L2 _ [] eq_refl).
Qed.

Lemma collect_cases baseDir listing result w r w' :
  collectMigrationFiles baseDir listing result w = (r, w') ->
  w' = w /\
  match r with
  | inr out =>
      out = result ++ map (entryOf (fs w) baseDir) (List.filter (Js.endsWith ".sql") listing) /\
      Forall (fun file => is_Some (readFile (fs w) (Path.join baseDir file)))
        (List.filter (Js.endsWith ".sql") listing)
  | inl e =>
      exists file, file ∈ listing /\ Js.endsWith ".sql" file = true /\
        readFile (fs w) (Path.join baseDir file) = None
  end.
Proof.
  revert result. induction listing as [|file rest IH]; intros result; simpl.
  - intros [= <- <-]. by rewrite app_nil_r.
  - destruct (Js.endsWith ".sql" file) eqn:E.
    + unfold bind at 1, computeChecksum. munfold.
      destruct (readFile (fs w) (Path.join baseDir file)) as [content|] eqn:ER.
      * intros HC. apply IH in HC as [-> HC]. split; [done|].
        destruct r as [e|out].
        -- destruct HC as (f & Hf & Hs & Hr). exists f.
           split; [by apply elem_of_cons; right|done].
        -- destruct HC as [-> HF]. split.
           ++ simpl. unfold entryOf at 2. rewrite ER. simpl.
              by rewrite <- app_assoc.
           ++ constructor; [by rewrite ER|done].
      * intros [= <- <-]. split; [done|]. exists file.
        split; [by apply elem_of_cons; left|done].
    + intros HC. apply IH in HC as [-> HC]. split; [done|].
      destruct r as [e|out]; [|done].
      destruct HC as (f & Hf & Hs & Hr). exists f.
      split; [by apply elem_of_cons; right|done].
Qed.

Lemma getMigrationFiles_world baseDir w r w' :
  getMigrationFiles baseDir w = (r, w') -> w' = w.
Proof.
  unfold getMigrationFiles, fsReaddir. munfold.
  destruct (readdir (fs w) baseDir); [|by intros [= <- <-]].
  intros HC. by apply collect_cases in HC as [-> _].
Qed.

Lemma getMigrationFiles_ok baseDir w catalog w' :
  getMigrationFiles baseDir w = (inr catalog, w') ->
  exists listing, readdir (fs w) baseDir = Some listing /\
    catalog = map (entryOf (fs w) baseDir) (List.filter (Js.endsWith ".sql") listing) /\
    Forall (fun file => is_Some (readFile (fs w) (Path.join baseDir file)))
      (List.filter (Js.endsWith ".sql") listing).
Proof.
  unfold getMigrationFiles, fsReaddir. munfold.
  destruct (readdir (fs w) baseDir) as [listing|]; [|done].
  intros HC. apply collect_cases in HC as [-> HC]. eauto.
Qed.

Lemma applyMigrations_cases baseDir w r w' :
  applyMigrations baseDir w = (r, w') ->
  fs w' = fs w /\
  ((exists e, getMigrationFiles baseDir w = (inl e, w) /\
      r = inr false /\ db w' = db w /\
      trace w' = trace w ++ [ConsoleError ["Failed"; message e]]) \/
   (exists catalog, getMigrationFiles baseDir w = (inr catalog, w) /\
      match firstFailure (lookupOf catalog) (merge_sort rowLe (ensured (db w)).2) with
      | Some e =>
          r = inr false /\ db w' = db w /\
          trace w' = trace w ++ [Sql (Begin serializable)] ++ headEvents ++
                     [Sql Rollback; ConsoleError ["Failed"; message e]]
      | None =>
          let pending := pendingFiles catalog (ensured (db w)).2 in
          let round := nextRound (ensured (db w)).2 in
          (r = inr true /\
           trace w' = trace w ++ [Sql (Begin serializable)] ++ headEvents ++
                      flat_map (statementsOf round) pending ++
                      [Sql Commit;
                       ConsoleLog ["Applied"; pretty (length pending) +:+ " migrations"]] /\
           ledger (db w') =
             Some ((ensured (db w)).1, (ensured (db w)).2 ++ map (toRow round) pending) /\
           search_path (db w') = search_path (db w) /\
           session_user (db w') = session_user (db w) /\
           current_schema (db w') = current_schema (db w)) \/
          (r = inr false /\ db w' = db w /\
           exists evs msg,
             trace w' = trace w ++ [Sql (Begin serializable)] ++ headEvents ++ evs ++
                        [Sql Rollback; ConsoleError ["Failed"; msg]] /\
             executedFiles evs `prefix_of` map MigrationFile.path pending)
      end)).
Proof.
  unfold applyMigrations, tryCatch. unfold bind at 1.
  destruct (getMigrationFiles baseDir w) as [[e|catalog] w1] eqn:EG;
    pose proof (getMigrationFiles_world _ _ _ _ EG) as ->.
  { unfold log, bind, ret. intros [= <- <-]. split; [done|]. left. eauto. }
  fold (lookupOf catalog). unfold bind at 1, begin.
  destruct (applyTransaction catalog (lookupOf catalog) _) as [[e|n] w2] eqn:ET;
    apply applyTransaction_cases in ET as [F2 R2]; simpl in F2, R2;
    unfold log, bind, ret; intros [= <- <-]; (split; [done|]); right;
    exists catalog; (split; [done|]);
    destruct (firstFailure _ _) as [e'|].
  - destruct R2 as [[= ->] T2]. simpl. repeat split; try done.
    rewrite T2. by rewrite <- !app_assoc.
  - right. destruct R2 as (evs & T2 & P2). simpl. repeat split; try done.
    exists evs, (message e). split; [|done]. rewrite T2.
    by rewrite <- !app_assoc.
  - by destruct R2.
  - left. destruct R2 as (-> & T2 & L2 & S2 & U2 & C2). simpl.
    repeat split; try done. rewrite T2. by rewrite <- !app_assoc.
Qed.

End Apply.

(** ** Generated file names *)

Section FileNames.

Lemma replaceAll_remove cls s :
  Js.replaceAll cls "" s =
  string_of_list_ascii (List.filter (fun c => negb (cls c)) (list_ascii_of_string s)).
Proof.
  induction s as [|c s IH]; [done|]. simpl.
  destruct (cls c); simpl; by rewrite IH.
Qed.

Lemma replaceAll_subst cls c s :
  Js.replaceAll cls (String c "") s =
  string_of_list_ascii (map (fun x => if cls x then c else x) (list_ascii_of_string s)).
Proof.
  induction s as [|x s IH]; [done|]. simpl.
  destruct (cls x); simpl; by rewrite IH.
Qed.

Lemma append_cons c a b : String c a +:+ b = String c (a +:+ b).
Proof. reflexivity. Qed.

Lemma append_assoc a b c : (a +:+ b) +:+ c = a +:+ (b +:+ c).
Proof. induction a as [|x a IH]; [done|]. rewrite !append_cons. by rewrite IH. Qed.

Lemma append_nil_r a : a +:+ "" = a.
Proof. induction a as [|x a IH]; [done|]. rewrite append_cons. by rewrite IH. Qed.

Lemma replaceAll_app cls r a b :
  Js.replaceAll cls r (a +:+ b) = Js.replaceAll cls r a +:+ Js.replaceAll cls r b.
Proof.
  induction a as [|c a IH]; [done|]. rewrite append_cons. simpl.
  destruct (cls c); rewrite IH; [|done].
  by rewrite append_assoc.
Qed.

Lemma replaceAll_digits s :
  Js.allChars Js.isDigit s = true -> Js.replaceAll Js.notDigit "" s = s.
Proof.
  induction s as [|c s IH]; [done|]. cbn [Js.replaceAll Js.allChars].
  intros [Hc Hs]%andb_true_iff. unfold Js.notDigit at 1. rewrite Hc.
  cbn [negb]. by rewrite IH.
Qed.

Lemma allChars_app p a b :
  Js.allChars p (a +:+ b) = Js.allChars p a && Js.allChars p b.
Proof.
  induction a as [|c a IH]; [done|]. rewrite append_cons. simpl.
  by rewrite IH, andb_assoc.
Qed.

Lemma allChars_substring p n s :
  Js.allChars p s = true -> Js.allChars p (String.substring 0 n s) = true.
Proof.
  revert n. induction s as [|c s IH]; intros [|n]; simpl; try done.
  intros [Hc Hs]%andb_true_iff. rewrite Hc. simpl. by apply IH.
Qed.

Lemma length_substring n s :
  (n <= String.length s)%nat -> String.length (String.substring 0 n s) = n.
Proof.
  revert n. induction s as [|c s IH]; intros [|n]; simpl; try done; try lia.
  intros ?. f_equal. apply IH. lia.
Qed.

Lemma length_append a b :
  String.length (a +:+ b) = (String.length a + String.length b)%nat.
Proof. induction a as [|c a IH]; [done|]. rewrite append_cons. simpl. by rewrite IH. Qed.

Lemma substring_append n a b :
  String.length a = n -> String.substring 0 n (a +:+ b) = a.
Proof.
  revert n. induction a as [|c a IH]; intros n <-.
  - by destruct b.
  - rewrite append_cons. simpl. f_equal. by apply IH.
Qed.

Lemma digitChar_isDigit n : Js.isDigit (Js.digitChar (n mod 10)) = true.
Proof.
  pose proof (Z.mod_pos_bound n 10 eq_refl) as Hb.
  assert (n mod 10 = 0 \/ n mod 10 = 1 \/ n mod 10 = 2 \/ n mod 10 = 3 \/
          n mod 10 = 4 \/ n mod 10 = 5 \/ n mod 10 = 6 \/ n mod 10 = 7 \/
          n mod 10 = 8 \/ n mod 10 = 9) as Hc by lia.
  repeat (destruct Hc as [->|Hc]; [reflexivity|]). by rewrite Hc.
Qed.

Lemma padAcc_digits w n acc :
  Js.allChars Js.isDigit acc = true ->
  Js.allChars Js.isDigit (Js.padAcc w n acc) = true.
Proof.
  revert n acc. induction w as [|w IH]; intros n acc Hacc; [done|].
  simpl. apply IH. simpl. by rewrite digitChar_isDigit.
Qed.

Lemma padAcc_length w n acc :
  String.length (Js.padAcc w n acc) = (w + String.length acc)%nat.
Proof.
  revert n acc. induction w as [|w IH]; intros n acc; [done|].
  simpl. rewrite IH. simpl. lia.
Qed.

Lemma pad_digits w n : Js.allChars Js.isDigit (Js.pad w n) = true.
Proof. by apply padAcc_digits. Qed.

Lemma pad_length w n : String.length (Js.pad w n) = w.
Proof. unfold Js.pad. rewrite padAcc_length. simpl. lia. Qed.

(** The digits of an ISO date: those of the year, then ten digits of
    month, day, hours, minutes and seconds, then the milliseconds. *)
Lemma iso_digits d :
  exists y, (4 <= String.length y)%nat /\ Js.allChars Js.isDigit y = true /\
    (0 <= Js.utcFullYear d <= 9999 -> y = Js.pad 4 (Js.utcFullYear d)) /\
    Js.replaceAll Js.notDigit "" (Js.toISOString d) =
    (y +:+ Js.pad 2 (Js.utcMonth d + 1) +:+ Js.pad 2 (Js.utcDate d) +:+
     Js.pad 2 (Js.utcHours d) +:+ Js.pad 2 (Js.utcMinutes d) +:+
     Js.pad 2 (Js.utcSeconds d)) +:+ Js.pad 3 (Js.utcMilliseconds d).
Proof.
  assert (Hs : forall c s, Js.isDigit c = false ->
    Js.replaceAll Js.notDigit "" (String c "" +:+ s) = Js.replaceAll Js.notDigit "" s).
  { intros c s Hc. rewrite append_cons. simpl. unfold Js.notDigit at 1.
    by rewrite Hc. }
  assert (Hy : exists y, (4 <= String.length y)%nat /\ Js.allChars Js.isDigit y = true /\
    (0 <= Js.utcFullYear d <= 9999 -> y = Js.pad 4 (Js.utcFullYear d)) /\
    Js.replaceAll Js.notDigit "" (Js.isoYear (Js.utcFullYear d)) = y).
  { unfold Js.isoYear.
    destruct ((0 <=? Js.utcFullYear d) && (Js.utcFullYear d <=? 9999)) eqn:E.
    - exists (Js.pad 4 (Js.utcFullYear d)).
      rewrite pad_length, pad_digits, replaceAll_digits by apply pad_digits. auto.
    - assert (~ 0 <= Js.utcFullYear d <= 9999) as Hn.
      { apply andb_false_iff in E as [E|E]; lia. }
      destruct (Js.utcFullYear d <? 0).
      + exists (Js.pad 6 (- Js.utcFullYear d)).
        rewrite pad_length, pad_digits, (Hs "-"%char) by done.
        rewrite replaceAll_digits by apply pad_digits.
        repeat split; [lia|tauto].
      + exists (Js.pad 6 (Js.utcFullYear d)).
        rewrite pad_length, pad_digits, (Hs "+"%char) by done.
        rewrite replaceAll_digits by apply pad_digits.
        repeat split; [lia|tauto]. }
  destruct Hy as (y & Hl & Hd & Hp & Hy). exists y.
  repeat split; try done.
  unfold Js.toISOString.
  rewrite !replaceAll_app, Hy.
  change (Js.replaceAll Js.notDigit "" "-") with "".
  change (Js.replaceAll Js.notDigit "" "T") with "".
  change (Js.replaceAll Js.notDigit "" ":") with "".
  change (Js.replaceAll Js.notDigit "" ".") with "".
  change (Js.replaceAll Js.notDigit "" "Z") with "".
  rewrite !replaceAll_digits by apply pad_digits.
  change ("" +:+ ?x) with x. rewrite append_nil_r.
  by rewrite !append_assoc.
Qed.

Lemma timestamp_digits d :
  let timestamp := Js.slice0 14 (Js.replaceAll Js.notDigit "" (Js.toISOString d)) in
  String.length timestamp = 14%nat /\ Js.allChars Js.isDigit timestamp = true /\
  (0 <= Js.utcFullYear d <= 9999 ->
   timestamp =
     Js.pad 4 (Js.utcFullYear d) +:+ Js.pad 2 (Js.utcMonth d + 1) +:+
     Js.pad 2 (Js.utcDate d) +:+ Js.pad 2 (Js.utcHours d) +:+
     Js.pad 2 (Js.utcMinutes d) +:+ Js.pad 2 (Js.utcSeconds d)).
Proof.
  destruct (iso_digits d) as (y & Hl & Hd & Hp & ->). unfold Js.slice0.
  repeat split.
  - apply length_substring. rewrite !length_append, !pad_length. lia.
  - apply allChars_substring. rewrite !allChars_app, !pad_digits, Hd. done.
  - intros Hy. rewrite <- (Hp Hy). apply substring_append.
    rewrite !length_append, !pad_length, (Hp Hy), pad_length. done.
Qed.

Lemma lowerChar_class c :
  Js.isSpaceLowerDigit (Js.lowerChar c) = true -> isLetterDigitSpace c = true.
Proof. destruct c as [[] [] [] [] [] [] [] []]; by vm_compute. Qed.

Lemma namePart_empty name :
  Js.allChars (fun c => negb (isLetterDigitSpace c)) name = true ->
  Js.replaceAll Js.isWhitespace "_"
    (Js.replaceAll Js.notSpaceLowerDigit "" (Js.toLowerCase name)) = "".
Proof.
  induction name as [|c name IH]; [done|]. simpl.
  intros [Hc Hn]%andb_true_iff. unfold Js.notSpaceLowerDigit at 1.
  destruct (Js.isSpaceLowerDigit (Js.lowerChar c)) eqn:E.
  - apply lowerChar_class in E. by rewrite E in Hc.
  - simpl. by apply IH.
Qed.

Lemma namePart_spec name :
  Js.replaceAll Js.isWhitespace "_"
    (Js.replaceAll Js.notSpaceLowerDigit "" (Js.toLowerCase name)) =
  specNamePart name.
Proof.
  unfold specNamePart. rewrite replaceAll_remove, replaceAll_subst.
  rewrite list_ascii_of_string_of_list_ascii. f_equal. f_equal.
  apply List.filter_ext. intros c. unfold Js.notSpaceLowerDigit, Js.isSpaceLowerDigit.
  rewrite negb_involutive. by destruct (Js.isSpaceChar c), (Js.isLowerAZ c), (Js.isDigit c).
Qed.

Lemma namePart_chars name :
  Js.allChars (fun c => Js.isLowerAZ c || Js.isDigit c || (Js.code c =? 95)%N)
    (specNamePart name) = true.
Proof.
  unfold specNamePart.
  induction (list_ascii_of_string (Js.toLowerCase name)) as [|c l IH]; [done|].
  simpl. destruct (Js.isLowerAZ c || Js.isDigit c || Js.isSpaceChar c) eqn:E; [|done].
  simpl. rewrite IH, andb_true_r.
  destruct c as [[] [] [] [] [] [] [] []]; by vm_compute in E |- *.
Qed.

End FileNames.

(** ** [generateMigration] *)

Lemma mkdirFrom_cwd segs : forall parent f f',
  mkdirFrom parent segs f = Some f' -> cwd f' = cwd f.
Proof.
  induction segs as [|seg segs IH]; intros parent f f'; simpl.
  - by intros [= <-].
  - destruct (files f !! child parent seg); [done|].
    destruct (dirs f !! child parent seg).
    + apply IH.
    + intros E. by apply IH in E.
Qed.

Lemma newEvents_app w w' evs : trace w' = trace w ++ evs -> newEvents w w' = evs.
Proof. intros E. unfold newEvents. rewrite E. apply drop_app_length. Qed.

(** C10. For every name, [generateMigration] creates a file named
    <14-digit timestamp>_<t>.sql, where t is the name lowercased, with
    every character other than lowercase letters, digits and spaces removed
    and each whitespace character replaced by an underscore; a name without
    letters, digits or spaces gives <timestamp>_.sql. *)
Theorem generateMigration_file_name (now : Js.Date) (name baseDir : string) :
  exists timestamp,
    String.length timestamp = 14%nat /\
    Js.allChars Js.isDigit timestamp = true /\
    migrationFileName now name = timestamp +:+ "_" +:+ specNamePart name +:+ ".sql" /\
    Js.allChars (fun c => Js.isLowerAZ c || Js.isDigit c || (Js.code c =? 95)%N)
      (specNamePart name) = true /\
    (Js.allChars (fun c => negb (isLetterDigitSpace c)) name = true ->
     migrationFileName now name = timestamp +:+ "_.sql") /\
    (forall w w',
       generateMigration now name baseDir w = (inr tt, w') ->
       let targetDir := Path.resolve (cwd (fs w)) baseDir in
       let target := Path.join targetDir (migrationFileName now name) in
       newEvents w w' =
         [Mkdir targetDir; WriteFile target migrationTemplate;
          ConsoleLog ["Created"; Path.join baseDir (migrationFileName now name)]] /\
       readFile (fs w') target = Some migrationTemplate).
Proof.
  destruct (timestamp_digits now) as (Hl & Hd & _).
  eexists. split; [exact Hl|]. split; [exact Hd|].
  split; [|split; [apply namePart_chars|split]].
  - unfold migrationFileName. by rewrite namePart_spec.
  - intros Hn. unfold migrationFileName. by rewrite (namePart_empty _ Hn).
  - intros w w'. unfold generateMigration, fsMkdir, fsWriteFile. munfold.
    destruct (mkdirRecursive _ (fs w)) as [f1|] eqn:E1; [|done]. simpl.
    destruct (writeFile _ _ f1) as [f2|] eqn:E2; [|done]. simpl.
    intros [= <-]. simpl. split.
    + apply newEvents_app. simpl. by rewrite <- !app_assoc.
    + apply mkdirFrom_cwd in E1. unfold writeFile in E2. rewrite E1 in E2.
      destruct (reverse _) as [|base parents]; [done|].
      destruct (dirs f1 !! _); [|done].
      destruct (dirs f1 !! _); [done|].
      injection E2 as <-. unfold readFile. simpl. rewrite ?E1.
      apply lookup_insert_eq.
Qed.

Lemma generateMigration_file_name_witness :
  let w := Scenario.mkWorld Scenario.twoSorted Scenario.fresh in
  Js.allChars (fun c => negb (isLetterDigitSpace c)) "?!" = true /\
  (exists timestamp,
     migrationFileName Scenario.sampleDate "?!" = timestamp +:+ "_.sql") /\
  (generateMigration Scenario.sampleDate "?!" Scenario.dir w).1 = inr tt /\
  readFile (fs (generateMigration Scenario.sampleDate "?!" Scenario.dir w).2)
    "/home/app/migrations/20231025194200_.sql" = Some migrationTemplate.
Proof.
  intros w. split; [reflexivity|].
  destruct (generateMigration_file_name Scenario.sampleDate "?!" Scenario.dir)
    as (timestamp & _ & _ & _ & _ & He & Hg).
  split; [exists timestamp; apply He; reflexivity|].
  split; [by vm_compute|].
  apply (Hg w (generateMigration Scenario.sampleDate "?!" Scenario.dir w).2).
  by vm_compute.
Defined.

Example generateMigration_example :
  migrationFileName Scenario.sampleDate "Add  Users-Table 2!" =
  "20231025194200_add__userstable_2.sql".
Proof. reflexivity. Qed.

(** ** [getMigrationFiles] *)

Section Catalog.

Context `{Collaborators}.

(** C9 (amended). The catalog read lists the directory path as it is given,
    without resolving it: each entry is named after a file of the listing
    with the .sql extension, in the order of the listing, its path is the
    given directory joined with the file name, and its checksum is the
    digest of the content of the file at that path; other files are
    ignored.  When the directory cannot be listed the read fails. *)
Theorem getMigrationFiles_catalog baseDir w :
  (readdir (fs w) baseDir = None ->
   exists e, getMigrationFiles baseDir w = (inl e, w) /\ kind e = SystemError) /\
  (forall listing,
     readdir (fs w) baseDir = Some listing ->
     Forall (fun file => is_Some (readFile (fs w) (Path.join baseDir file)))
       (List.filter (Js.endsWith ".sql") listing) ->
     exists catalog,
       getMigrationFiles baseDir w = (inr catalog, w) /\
       Forall2
         (fun file f =>
            MigrationFile.name f = file /\
            MigrationFile.path f = Path.join baseDir file /\
            exists content,
              readFile (fs w) (Path.join baseDir file) = Some content /\
              MigrationFile.checksum f = sha256hex content)
         (List.filter (Js.endsWith ".sql") listing) catalog).
Proof.
  split.
  - intros E. unfold getMigrationFiles, fsReaddir. munfold. rewrite E. eauto.
  - intros listing E Hread.
    destruct (getMigrationFiles baseDir w) as [r w'] eqn:EG.
    pose proof (getMigrationFiles_world _ _ _ _ EG) as ->.
    unfold getMigrationFiles, fsReaddir in EG. munfold. rewrite E in EG.
    apply collect_cases in EG as [_ EG]. destruct r as [e|catalog].
    + destruct EG as (file & Hin & Hsql & Hnone).
      rewrite Forall_forall in Hread.
      assert (file ∈ List.filter (Js.endsWith ".sql") listing) as Hf.
      { apply list_elem_of_In, List.filter_In. by rewrite <- list_elem_of_In. }
      apply Hread in Hf as [? Hf]. congruence.
    + destruct EG as [-> _]. eexists. split; [done|]. simpl.
      induction Hread as [|file l [content Hc] _ IH]; [constructor|].
      simpl. constructor; [|exact IH].
      unfold entryOf. rewrite Hc. simpl. eauto.
Qed.

End Catalog.

Lemma getMigrationFiles_catalog_witness :
  readdir Scenario.twoScripts Scenario.dir =
    Some [Scenario.usersSql; "README.md"; Scenario.initSql] /\
  exists catalog,
    getMigrationFiles Scenario.dir (Scenario.mkWorld Scenario.twoScripts Scenario.fresh) =
      (inr catalog, Scenario.mkWorld Scenario.twoScripts Scenario.fresh) /\
    map MigrationFile.name catalog = [Scenario.usersSql; Scenario.initSql].
Proof.
  split; [reflexivity|].
  destruct (proj2 (getMigrationFiles_catalog Scenario.dir
                     (Scenario.mkWorld Scenario.twoScripts Scenario.fresh))
              [Scenario.usersSql; "README.md"; Scenario.initSql] eq_refl)
    as (catalog & E & _).
  - change (List.filter (Js.endsWith ".sql") _)
      with [Scenario.usersSql; Scenario.initSql].
    apply Forall_cons; split; [by eexists; vm_compute|].
    apply Forall_cons; split; [by eexists; vm_compute|].
    apply Forall_nil_2.
  - exists catalog. split; [exact E|].
    vm_compute in E. injection E as <-. reflexivity.
Defined.

(** C9, as stated, fails: the directory path is not resolved to an absolute
    path; the entries of a relative directory carry relative paths. *)
Lemma getMigrationFiles_keeps_relative_path :
  exists f catalog,
    getMigrationFiles "./migrations" (Scenario.mkWorld Scenario.twoSorted Scenario.fresh) =
      (inr (f :: catalog), Scenario.mkWorld Scenario.twoSorted Scenario.fresh) /\
    MigrationFile.path f = "migrations/20230101000000_init.sql" /\
    Path.isAbsolute (MigrationFile.path f) = false /\
    MigrationFile.path f <>
      Path.join (Path.resolve "/home/app" "./migrations") (MigrationFile.name f).
Proof.
  eexists _, _. split; [by vm_compute|]. by vm_compute.
Qed.

(** ** [applyMigrations] *)

Section ApplyProperties.

Context `{Collaborators}.

Lemma ensured_rows d : (ensured d).2 = ledgerRows d.
Proof. unfold ensured, ledgerRows. by destruct (ledger d) as [[]|]. Qed.

Lemma firstFailure_None lookup ms :
  firstFailure lookup ms = None -> Forall (fun m => checkFailure lookup m = None) ms.
Proof.
  induction ms as [|m ms IH]; [constructor|]. simpl.
  destruct (checkFailure lookup m) eqn:E; [done|]. intros ?. constructor; auto.
Qed.

Lemma firstFailure_app lookup pre m0 post :
  Forall (fun m => checkFailure lookup m = None) pre ->
  firstFailure lookup (pre ++ m0 :: post) =
  match checkFailure lookup m0 with
  | Some e => Some e
  | None => firstFailure lookup post
  end.
Proof. induction 1 as [|m pre Hm _ IH]; [done|]. simpl. by rewrite Hm. Qed.

Lemma checkFailure_file catalog m f :
  catalogFile catalog (Migration.name m) = Some f ->
  checkFailure (lookupOf catalog) m =
  if bool_decide (Migration.checksum m <> MigrationFile.checksum f)
  then Some (checksumMismatch (Migration.name m)) else None.
Proof.
  unfold catalogFile, checkFailure, JsObject.get, lookupOf. by intros ->.
Qed.

Lemma statements_not_failed round pending s msg :
  SqlFailed s msg ∉ flat_map (statementsOf round) pending.
Proof.
  induction pending as [|f pending IH]; [apply not_elem_of_nil|].
  simpl. rewrite !not_elem_of_cons. done.
Qed.

Lemma executedFiles_statements round pending :
  executedFiles (flat_map (statementsOf round) pending) =
  map MigrationFile.path pending.
Proof. induction pending as [|f pending IH]; [done|]. simpl. by rewrite <- IH. Qed.

Lemma last_snoc2 {A} (l : list A) a b : last (l ++ [a; b]) = Some b.
Proof. change [a; b] with ([a] ++ [b]). by rewrite app_assoc, last_snoc. Qed.

Lemma executedFiles_app a b :
  executedFiles (a ++ b) = executedFiles a ++ executedFiles b.
Proof. apply omap_app. Qed.

(** X1. The integrity check.  If a ledger entry whose name appears in the
    current catalog has a checksum different from that file's current
    checksum, the apply operation fails, runs no script, inserts nothing
    and leaves the database (the ledger included) exactly as it was; when
    every entry read before a mismatching entry has its file in the
    catalog with the recorded checksum, the failure is the integrity error
    naming that entry. *)
Theorem applyMigrations_checksum_mismatch baseDir w catalog s rows m f :
  getMigrationFiles baseDir w = (inr catalog, w) ->
  ledger (db w) = Some (s, rows) ->
  m ∈ rows ->
  catalogFile catalog (Migration.name m) = Some f ->
  Migration.checksum m <> MigrationFile.checksum f ->
  exists msg w',
    applyMigrations baseDir w = (inr false, w') /\
    fs w' = fs w /\ db w' = db w /\
    trace w' = trace w ++
      [Sql (Begin serializable); Sql CreateMigrationsTable; Sql LockMigrationsTable;
       Sql SelectMigrations; Sql Rollback; ConsoleError ["Failed"; msg]] /\
    (forall pre m0 post f0,
       merge_sort rowLe rows = pre ++ m0 :: post ->
       Forall (fun x => exists fx, catalogFile catalog (Migration.name x) = Some fx /\
                          Migration.checksum x = MigrationFile.checksum fx) pre ->
       catalogFile catalog (Migration.name m0) = Some f0 ->
       Migration.checksum m0 <> MigrationFile.checksum f0 ->
       msg = message (checksumMismatch (Migration.name m0))).
Proof.
  intros EG EL Hm Hf Hne.
  destruct (applyMigrations baseDir w) as [r w'] eqn:EA.
  apply applyMigrations_cases in EA as [F [(e & EG' & _)|(catalog' & EG' & R)]];
    rewrite EG in EG'; [done|]. injection EG' as <-.
  assert (ensured (db w) = (s, rows)) as EE by (unfold ensured; by rewrite EL).
  rewrite EE in R. simpl in R.
  destruct (firstFailure _ _) as [e|] eqn:EF.
  - destruct R as (-> & D & T). exists (message e), w'.
    repeat split; try done.
    intros pre m0 post f0 Hsplit Hpre Hf0 Hne0.
    rewrite Hsplit, firstFailure_app in EF.
    + rewrite (checkFailure_file _ _ _ Hf0) in EF.
      rewrite bool_decide_eq_true_2 in EF by done. by injection EF as <-.
    + eapply Forall_impl; [exact Hpre|]. intros x (fx & Hfx & Hx). simpl.
      rewrite (checkFailure_file _ _ _ Hfx). by rewrite bool_decide_eq_false_2 by tauto.
  - apply firstFailure_None in EF. rewrite Forall_forall in EF.
    assert (m ∈ merge_sort rowLe rows) as Hm'.
    { by rewrite merge_sort_Permutation. }
    apply EF in Hm'. rewrite (checkFailure_file _ _ _ Hf) in Hm'.
    by rewrite bool_decide_eq_true_2 in Hm' by done.
Qed.

Lemma checkFailure_missing catalog m :
  catalogFile catalog (Migration.name m) = None ->
  Migration.name m ∉ JsObject.prototypeKeys ->
  checkFailure (lookupOf catalog) m = Some undefinedChecksum.
Proof.
  unfold catalogFile, checkFailure, JsObject.get, lookupOf. intros -> Hk.
  by rewrite bool_decide_eq_false_2.
Qed.

(** X2. A ledger entry whose file is no longer in the catalog, read before any
    mismatch, makes the apply operation fail on the property access
    [migrationFile.checksum]; the database is left as it was. *)
Theorem applyMigrations_missing_file baseDir w catalog s rows pre m post :
  getMigrationFiles baseDir w = (inr catalog, w) ->
  ledger (db w) = Some (s, rows) ->
  merge_sort rowLe rows = pre ++ m :: post ->
  Forall (fun x => exists fx, catalogFile catalog (Migration.name x) = Some fx /\
                     Migration.checksum x = MigrationFile.checksum fx) pre ->
  catalogFile catalog (Migration.name m) = None ->
  Migration.name m ∉ JsObject.prototypeKeys ->
  exists w',
    applyMigrations baseDir w = (inr false, w') /\
    db w' = db w /\
    trace w' = trace w ++
      [Sql (Begin serializable); Sql CreateMigrationsTable; Sql LockMigrationsTable;
       Sql SelectMigrations; Sql Rollback;
       ConsoleError ["Failed"; message undefinedChecksum]].
Proof.
  intros EG EL Hsplit Hpre Hnone Hk.
  destruct (applyMigrations baseDir w) as [r w'] eqn:EA.
  apply applyMigrations_cases in EA as [F [(e & EG' & _)|(catalog' & EG' & R)]];
    rewrite EG in EG'; [done|]. injection EG' as <-.
  assert (ensured (db w) = (s, rows)) as EE by (unfold ensured; by rewrite EL).
  rewrite EE in R. simpl in R.
  rewrite Hsplit, firstFailure_app, (checkFailure_missing _ _ Hnone Hk) in R.
  - destruct R as (-> & D & T). by exists w'.
  - eapply Forall_impl; [exact Hpre|]. intros x (fx & Hfx & Hx). simpl.
    rewrite (checkFailure_file _ _ _ Hfx). by rewrite bool_decide_eq_false_2 by tauto.
Qed.

(** C2. If the execution of a pending migration script fails during an
    apply call, the call fails and the whole batch is rolled back: the
    database, and so the ledger, is as before the call, whatever scripts
    ran before the failing one. *)
Theorem applyMigrations_script_failure baseDir w p msg :
  SqlFailed (RunFile p) msg ∈ newEvents w (applyMigrations baseDir w).2 ->
  (applyMigrations baseDir w).1 = inr false /\
  db (applyMigrations baseDir w).2 = db w /\
  ledgerRows (db (applyMigrations baseDir w).2) = ledgerRows (db w).
Proof.
  destruct (applyMigrations baseDir w) as [r w'] eqn:EA. simpl.
  apply applyMigrations_cases in EA as [F [(e & EG & -> & D & T)|(catalog & EG & R)]].
  { intros _. by rewrite D. }
  destruct (firstFailure _ _) as [e|].
  { destruct R as (-> & D & T). intros _. by rewrite D. }
  destruct R as [(-> & T & _)|(-> & D & _)].
  - rewrite (newEvents_app _ _ _ T). simpl.
    rewrite !elem_of_cons, elem_of_app, !elem_of_cons, elem_of_nil.
    intros [?|[?|[?|[?|[Hin|[?|[?|[]]]]]]]]; try done.
    by apply statements_not_failed in Hin.
  - intros _. by rewrite D.
Qed.

(** The effect of a successful call. *)
Lemma applyMigrations_success baseDir w w' :
  applyMigrations baseDir w = (inr true, w') ->
  exists catalog,
    getMigrationFiles baseDir w = (inr catalog, w) /\
    let pending := pendingFiles catalog (ledgerRows (db w)) in
    let round := nextRound (ledgerRows (db w)) in
    ledger (db w') =
      Some ((ensured (db w)).1, ledgerRows (db w) ++ map (toRow round) pending) /\
    last (trace w') =
      Some (ConsoleLog ["Applied"; pretty (length pending) +:+ " migrations"]).
Proof.
  intros EA.
  apply applyMigrations_cases in EA as [F [(e & EG & ? & _)|(catalog & EG & R)]];
    [done|].
  destruct (firstFailure _ _) as [e|]; [by destruct R|].
  destruct R as [(_ & T & L & _)|(? & _)]; [|done].
  rewrite ensured_rows in *.
  exists catalog. split; [done|]. split; [exact L|].
  by rewrite T, !app_assoc, last_snoc2.
Qed.

(** C3. An apply call that succeeds appends to the ledger one row per
    pending catalog file, all with the same round: the largest round of
    the ledger before the call plus 1, or 1 if the ledger was empty. *)
Theorem applyMigrations_round baseDir w w' :
  applyMigrations baseDir w = (inr true, w') ->
  exists s catalog added,
    getMigrationFiles baseDir w = (inr catalog, w) /\
    ledger (db w') = Some (s, ledgerRows (db w) ++ added) /\
    map Migration.name added =
      map MigrationFile.name (pendingFiles catalog (ledgerRows (db w))) /\
    Forall (fun m => Migration.round m = nextRound (ledgerRows (db w))) added /\
    (ledgerRows (db w) = [] -> Forall (fun m => Migration.round m = 1) added).
Proof.
  intros EA.
  apply applyMigrations_success in EA as (catalog & EG & L & _).
  eexists _, catalog, _. split; [exact EG|]. split; [exact L|].
  assert (forall r l, Forall (fun m => Migration.round m = r) (map (toRow r) l)) as HF.
  { intros r l. apply Forall_forall. intros m Hm.
    apply list_elem_of_fmap in Hm as (f & -> & _). done. }
  split; [|split; [apply HF|]].
  - rewrite <- list_fmap_compose. done.
  - intros ->. apply HF.
Qed.

(** The names of the pending files: the files of the listing with the
    .sql extension that the ledger does not name. *)
Lemma pendingFiles_listing f baseDir listing rows :
  map MigrationFile.path
    (pendingFiles (map (entryOf f baseDir) (List.filter (Js.endsWith ".sql") listing)) rows) =
  map (Path.join baseDir)
    (List.filter
       (fun file => Js.endsWith ".sql" file &&
                    bool_decide (file ∉ map Migration.name rows))
       listing).
Proof.
  unfold pendingFiles. rewrite pendingOf_spec.
  induction listing as [|file listing IH]; [done|]. simpl.
  destruct (Js.endsWith ".sql" file) eqn:E; simpl; [|exact IH].
  rewrite (bool_decide_eq_true_2 (file ∉ JsObject.prototypeKeys))
    by by apply sql_not_prototype.
  rewrite andb_true_r.
  assert (bool_decide (file ∉ map Migration.name (merge_sort rowLe rows)) =
          bool_decide (file ∉ map Migration.name rows)) as ->.
  { apply bool_decide_ext. by rewrite merge_sort_Permutation. }
  case_bool_decide; simpl; by rewrite IH.
Qed.

(** C4 (amended). The pending migrations are executed in the order in
    which the directory listing returns their files: a successful call
    runs, in that order, the files of the listing with the .sql extension
    that the ledger does not name, and a failed call a prefix of them. *)
Theorem applyMigrations_order baseDir w listing r w' :
  readdir (fs w) baseDir = Some listing ->
  applyMigrations baseDir w = (r, w') ->
  let pending :=
    List.filter
      (fun file => Js.endsWith ".sql" file &&
                   bool_decide (file ∉ map Migration.name (ledgerRows (db w))))
      listing in
  executedFiles (newEvents w w') `prefix_of` map (Path.join baseDir) pending /\
  (r = inr true -> executedFiles (newEvents w w') = map (Path.join baseDir) pending).
Proof.
  intros EL EA.
  apply applyMigrations_cases in EA as [F [(e & EG & -> & D & T)|(catalog & EG & R)]].
  { rewrite (newEvents_app _ _ _ T). simpl. split; [apply prefix_nil|done]. }
  apply getMigrationFiles_ok in EG as (listing' & EL' & -> & _).
  rewrite EL in EL'. injection EL' as <-.
  rewrite ensured_rows in R. simpl.
  destruct (firstFailure _ _) as [e|].
  { destruct R as (-> & D & T). rewrite (newEvents_app _ _ _ T). simpl.
    split; [apply prefix_nil|done]. }
  destruct R as [(-> & T & _)|(-> & D & evs & msg & T & P)];
    rewrite (newEvents_app _ _ _ T); simpl.
  - rewrite executedFiles_app, executedFiles_statements. simpl.
    rewrite app_nil_r, pendingFiles_listing. done.
  - rewrite executedFiles_app. simpl. rewrite app_nil_r.
    rewrite pendingFiles_listing in P. done.
Qed.

(** C5 (amended). Every apply call returns a boolean and never throws.  It
    returns [true] when the batch is committed, after reporting on the
    console the count of migrations applied in the batch, which is the
    number of rows the call added to the ledger; it returns [false] when
    anything failed, after reporting the failure, and the database is then
    as before the call. *)
Theorem applyMigrations_outcome baseDir w :
  exists (b : bool) w',
    applyMigrations baseDir w = (inr b, w') /\
    if b then
      exists s added,
        ledger (db w') = Some (s, ledgerRows (db w) ++ added) /\
        last (trace w') =
          Some (ConsoleLog ["Applied"; pretty (length added) +:+ " migrations"])
    else
      db w' = db w /\
      exists msg, last (trace w') = Some (ConsoleError ["Failed"; msg]).
Proof.
  destruct (applyMigrations baseDir w) as [r w'] eqn:EA.
  pose proof EA as EA'.
  apply applyMigrations_cases in EA' as [F [(e & EG & -> & D & T)|(catalog & EG & R)]].
  { exists false, w'. repeat split; try done. exists (message e).
    by rewrite T, last_snoc. }
  destruct (firstFailure _ _) as [e|].
  { destruct R as (-> & D & T). exists false, w'. repeat split; try done.
    exists (message e). by rewrite T, !app_assoc, last_snoc2. }
  destruct R as [(-> & T & L & _)|(-> & D & evs & msg & T & P)].
  - exists true, w'. split; [done|].
    destruct (applyMigrations_success _ _ _ EA) as (c & _ & L' & T').
    eexists _, _. split; [exact L'|]. by rewrite length_map.
  - exists false, w'. repeat split; try done. exists msg.
    by rewrite T, !app_assoc, last_snoc2.
Qed.

End ApplyProperties.

(** ** The apply properties on the concrete installation *)

Lemma applyMigrations_checksum_mismatch_witness :
  Scenario.usersRow ∈ [Scenario.initRow; Scenario.usersRow] /\
  exists w',
    applyMigrations Scenario.dir (Scenario.mkWorld Scenario.edited Scenario.migrated) =
      (inr false, w') /\
    db w' = Scenario.migrated /\
    last (trace w') =
      Some (ConsoleError ["Failed"; message (checksumMismatch Scenario.usersSql)]).
Proof.
  split; [apply elem_of_cons; right; apply elem_of_cons; by left|].
  destruct (applyMigrations_checksum_mismatch Scenario.dir
              (Scenario.mkWorld Scenario.edited Scenario.migrated)
              [Scenario.fileOf Scenario.initSql "init";
               Scenario.fileOf Scenario.usersSql "users, edited"]
              "public" [Scenario.initRow; Scenario.usersRow]
              Scenario.usersRow (Scenario.fileOf Scenario.usersSql "users, edited"))
    as (msg & w' & EA & _ & D & T & N).
  - by vm_compute.
  - reflexivity.
  - apply elem_of_cons; right; apply elem_of_cons; by left.
  - by vm_compute.
  - by vm_compute.
  - exists w'. split; [exact EA|]. split; [exact D|].
    rewrite T.
    rewrite (N [Scenario.initRow] Scenario.usersRow []
               (Scenario.fileOf Scenario.usersSql "users, edited")).
    + reflexivity.
    + by vm_compute.
    + apply Forall_cons; split; [|apply Forall_nil_2].
      exists (Scenario.fileOf Scenario.initSql "init"). by vm_compute.
    + by vm_compute.
    + by vm_compute.
Defined.

(** C1: the code misses the integrity error.  With a deleted script read
    before the edited one, the ledger entry of the edited script mismatches
    its file, yet the call fails on the row of the deleted script, with a
    type error that names no migration. *)
Theorem applyMigrations_mismatch_without_integrity_error :
  let w := Scenario.mkWorld Scenario.deletedAndEdited Scenario.migrated in
  Scenario.usersRow ∈ ledgerRows (db w) /\
  catalogFile [Scenario.fileOf Scenario.usersSql "users, edited"] Scenario.usersSql =
    Some (Scenario.fileOf Scenario.usersSql "users, edited") /\
  Migration.checksum Scenario.usersRow <>
    MigrationFile.checksum (Scenario.fileOf Scenario.usersSql "users, edited") /\
  getMigrationFiles Scenario.dir w =
    (inr [Scenario.fileOf Scenario.usersSql "users, edited"], w) /\
  (applyMigrations Scenario.dir w).1 = inr false /\
  last (trace (applyMigrations Scenario.dir w).2) =
    Some (ConsoleError ["Failed"; "Cannot read properties of undefined (reading 'checksum')"]) /\
  forall name,
    ConsoleError ["Failed"; message (checksumMismatch name)] ∉
      trace (applyMigrations Scenario.dir w).2.
Proof.
  intros w. split; [apply elem_of_cons; right; apply elem_of_cons; by left|].
  do 5 (split; [by vm_compute|]).
  intros name Hin.
  remember (trace (applyMigrations Scenario.dir w).2) as t eqn:Et.
  vm_compute in Et. subst t.
  repeat (apply elem_of_cons in Hin as [Hin|Hin]; [by vm_compute in Hin|]).
  by apply elem_of_nil in Hin.
Qed.

Lemma applyMigrations_script_failure_witness :
  let w := Scenario.mkWorld Scenario.broken Scenario.fresh in
  Sql (RunFile "migrations/20230101000000_init.sql") ∈
    newEvents w (applyMigrations Scenario.dir w).2 /\
  SqlFailed (RunFile "migrations/20230102000000_add_users.sql") "syntax error" ∈
    newEvents w (applyMigrations Scenario.dir w).2 /\
  (applyMigrations Scenario.dir w).1 = inr false /\
  db (applyMigrations Scenario.dir w).2 = Scenario.fresh /\
  ledgerRows (db (applyMigrations Scenario.dir w).2) = [].
Proof.
  intros w.
  assert (newEvents w (applyMigrations Scenario.dir w).2 =
    [Sql (Begin serializable); Sql CreateMigrationsTable; Sql LockMigrationsTable;
     Sql SelectMigrations; Sql (RunFile "migrations/20230101000000_init.sql");
     Sql (InsertMigration Scenario.initSql "sha256:init" 1);
     SqlFailed (RunFile "migrations/20230102000000_add_users.sql") "syntax error";
     Sql Rollback; ConsoleError ["Failed"; "syntax error"]]) as E by (by vm_compute).
  split; [rewrite E; do 4 (apply elem_of_cons; right); apply elem_of_cons; by left|].
  assert (SqlFailed (RunFile "migrations/20230102000000_add_users.sql") "syntax error" ∈
            newEvents w (applyMigrations Scenario.dir w).2) as Hin.
  { rewrite E. do 6 (apply elem_of_cons; right). apply elem_of_cons; by left. }
  split; [exact Hin|].
  exact (applyMigrations_script_failure Scenario.dir w _ _ Hin).
Defined.

Lemma applyMigrations_round_witness :
  let w := Scenario.mkWorld Scenario.threeSorted Scenario.migrated in
  (applyMigrations Scenario.dir w).1 = inr true /\
  nextRound (ledgerRows (db w)) = 2 /\
  exists s added,
    ledger (db (applyMigrations Scenario.dir w).2) = Some (s, ledgerRows (db w) ++ added) /\
    Forall (fun m => Migration.round m = 2) added.
Proof.
  intros w. split; [by vm_compute|]. split; [by vm_compute|].
  destruct (applyMigrations_round Scenario.dir w (applyMigrations Scenario.dir w).2)
    as (s & catalog & added & _ & L & _ & R & _).
  - by vm_compute.
  - exists s, added. split; [exact L|exact R].
Defined.

(** The scenario of the specification: two scripts on a fresh database, then
    a third one. *)
Example applyMigrations_scenario :
  let w := Scenario.mkWorld Scenario.twoSorted Scenario.fresh in
  let w1 := (applyMigrations Scenario.dir w).2 in
  let w2 := (applyMigrations Scenario.dir (withFs Scenario.threeSorted w1)).2 in
  ledgerRows (db w1) = [Scenario.initRow; Scenario.usersRow] /\
  last (trace w1) = Some (ConsoleLog ["Applied"; "2 migrations"]) /\
  ledgerRows (db w2) =
    [Scenario.initRow; Scenario.usersRow;
     Migration.mk Scenario.indexSql "sha256:index" 2] /\
  last (trace w2) = Some (ConsoleLog ["Applied"; "1 migrations"]).
Proof. by vm_compute. Qed.

Lemma applyMigrations_order_witness :
  let w := Scenario.mkWorld Scenario.twoScripts Scenario.fresh in
  readdir (fs w) Scenario.dir = Some [Scenario.usersSql; "README.md"; Scenario.initSql] /\
  executedFiles (newEvents w (applyMigrations Scenario.dir w).2) =
    ["migrations/20230102000000_add_users.sql"; "migrations/20230101000000_init.sql"].
Proof.
  intros w. split; [reflexivity|].
  destruct (applyMigrations_order Scenario.dir w
              [Scenario.usersSql; "README.md"; Scenario.initSql]
              (applyMigrations Scenario.dir w).1 (applyMigrations Scenario.dir w).2)
    as [_ E].
  - reflexivity.
  - by destruct (applyMigrations Scenario.dir w).
  - rewrite E; by vm_compute.
Defined.

(** C4, as stated, fails: the scripts run in the order of the directory
    listing, here the later file name first. *)
Lemma applyMigrations_runs_in_listing_order :
  let w := Scenario.mkWorld Scenario.twoScripts Scenario.fresh in
  readdir (fs w) Scenario.dir = Some [Scenario.usersSql; "README.md"; Scenario.initSql] /\
  executedFiles (newEvents w (applyMigrations Scenario.dir w).2) =
    [Path.join Scenario.dir Scenario.usersSql; Path.join Scenario.dir Scenario.initSql] /\
  ~ String.le Scenario.usersSql Scenario.initSql /\
  ~ Sorted String.le
      (executedFiles (newEvents w (applyMigrations Scenario.dir w).2)).
Proof.
  intros w. split; [reflexivity|].
  assert (executedFiles (newEvents w (applyMigrations Scenario.dir w).2) =
    [Path.join Scenario.dir Scenario.usersSql; Path.join Scenario.dir Scenario.initSql])
    as E by (by vm_compute).
  split; [exact E|]. split; [by vm_compute|].
  rewrite E. intros HS. apply Sorted_inv in HS as [_ HR].
  apply HdRel_inv in HR. by vm_compute in HR.
Qed.

(** C5, as stated, fails: the call that applies two migrations returns the
    boolean [true], not the count 2. *)
Lemma applyMigrations_returns_boolean :
  let w := Scenario.mkWorld Scenario.twoSorted Scenario.fresh in
  length (ledgerRows (db (applyMigrations Scenario.dir w).2)) = 2%nat /\
  resolvedValue (applyMigrations Scenario.dir w).1 = Some (JsBoolean true) /\
  resolvedValue (applyMigrations Scenario.dir w).1 <> Some (JsNumber 2).
Proof. intros w. split; [by vm_compute|]. split; by vm_compute. Qed.

(** C6: the code fails where the claim expects a success.  Every ledger row
    matches its file or names a script that is no longer in the catalog,
    and the call fails on the row of the deleted script, reading the
    checksum of [undefined]. *)
Theorem applyMigrations_deleted_file :
  let w := Scenario.mkWorld Scenario.deleted Scenario.migrated in
  let catalog := [Scenario.fileOf Scenario.usersSql "users"] in
  getMigrationFiles Scenario.dir w = (inr catalog, w) /\
  catalogFile catalog Scenario.initSql = None /\
  catalogFile catalog Scenario.usersSql = Some (Scenario.fileOf Scenario.usersSql "users") /\
  Migration.checksum Scenario.usersRow =
    MigrationFile.checksum (Scenario.fileOf Scenario.usersSql "users") /\
  applyMigrations Scenario.dir w =
    (inr false,
     {| fs := Scenario.deleted; db := Scenario.migrated;
        trace := [Sql (Begin serializable); Sql CreateMigrationsTable;
                  Sql LockMigrationsTable; Sql SelectMigrations; Sql Rollback;
                  ConsoleError ["Failed";
                    "Cannot read properties of undefined (reading 'checksum')"]] |}).
Proof. intros w catalog. repeat split; by vm_compute. Qed.

(** ** [resetDatabase] *)

Section ResetProperties.

Context `{Collaborators}.

Lemma filter_filter {A} (f g : A -> bool) l :
  List.filter f (List.filter g l) = List.filter (fun x => g x && f x) l.
Proof.
  induction l as [|x l IH]; [done|]. simpl.
  destruct (g x); simpl; [destruct (f x)|]; by rewrite IH.
Qed.

Lemma collect_fs baseDir listing : forall result w1 w2,
  fs w1 = fs w2 ->
  (collectMigrationFiles baseDir listing result w1).1 =
  (collectMigrationFiles baseDir listing result w2).1.
Proof.
  induction listing as [|file rest IH]; intros result w1 w2 F; [done|].
  simpl. destruct (Js.endsWith ".sql" file); [|by apply IH].
  unfold bind, computeChecksum, systemError, throw. rewrite F.
  destruct (readFile (fs w2) (Path.join baseDir file)); [by apply IH|done].
Qed.

Lemma getMigrationFiles_fs baseDir w1 w2 r :
  fs w1 = fs w2 ->
  getMigrationFiles baseDir w1 = (r, w1) ->
  getMigrationFiles baseDir w2 = (r, w2).
Proof.
  intros F E.
  destruct (getMigrationFiles baseDir w2) as [r2 w2'] eqn:E2.
  pose proof (getMigrationFiles_world _ _ _ _ E2) as ->. f_equal.
  unfold getMigrationFiles, fsReaddir, bind, systemError, throw in E, E2.
  rewrite F in E. destruct (readdir (fs w2) baseDir) as [listing|].
  - pose proof (collect_fs baseDir listing [] w1 w2 F) as EC.
    rewrite E, E2 in EC. by simpl in EC.
  - congruence.
Qed.

Lemma filter_true {A} (p : A -> bool) l :
  Forall (fun x => p x = true) l -> List.filter p l = l.
Proof. induction 1 as [|x l Hx _ IH]; [done|]. simpl. by rewrite Hx, IH. Qed.


(** C8. When reset is invoked without the force flag and the confirmation
    is declined, the operation returns without an error after reporting
    "Aborted": nothing is sent to the database, no apply call is made, and
    file system and database are untouched. *)
Theorem resetDatabase_declined baseDir w :
  resetDatabase baseDir false false w =
  (inr false,
   {| fs := fs w; db := db w;
      trace := trace w ++ [Prompt confirmMessage false; ConsoleLog ["Aborted"]] |}).
Proof.
  unfold resetDatabase, bind, log, ret, emit. simpl. by rewrite <- app_assoc.
Qed.

End ResetProperties.

Example resetDatabase_example :
  let w := Scenario.mkWorld Scenario.twoSorted Scenario.migrated in
  newEvents w (resetDatabase Scenario.dir false true w).2 =
    [Prompt confirmMessage true;
     Sql (Begin ""); Sql ShowSearchPath; Sql SelectUser;
     Sql (SelectTables ["alice"; "public"]);
     Sql (DropTable "public" "notes"); Sql (DropTable "public" "__migrations");
     Sql Commit; ConsoleLog ["Reset"; "Tables dropped"];
     Sql (Begin serializable); Sql CreateMigrationsTable; Sql LockMigrationsTable;
     Sql SelectMigrations;
     Sql (RunFile "migrations/20230101000000_init.sql");
     Sql (InsertMigration Scenario.initSql "sha256:init" 1);
     Sql (RunFile "migrations/20230102000000_add_users.sql");
     Sql (InsertMigration Scenario.usersSql "sha256:users" 1);
     Sql Commit; ConsoleLog ["Applied"; "2 migrations"]] /\
  map (fun t => (schemaname t, tablename t))
      (tables (db (resetDatabase Scenario.dir false true w).2)) =
    [("archive", "old_notes"); ("public", "init"); ("public", "users")].
Proof. by vm_compute. Qed.

(** * Further properties *)

(** ** The apply operation, step by step *)

Section ApplySteps.

Context `{Collaborators}.

Lemma headWorld_ledger w : ledger (db (headWorld w)) = Some (ensured (db w)).
Proof. unfold headWorld, ensured. simpl. by destruct (ledger (db w)) eqn:E. Qed.

Lemma headWorld_tables w : tables (db (headWorld w)) = tables (db w).
Proof. unfold headWorld. simpl. by destruct (ledger (db w)) eqn:E. Qed.

Lemma headWorld_rows w : ledgerRows (db (headWorld w)) = ledgerRows (db w).
Proof.
  unfold ledgerRows. rewrite headWorld_ledger. unfold ensured.
  by destruct (ledger (db w)) as [[]|].
Qed.

Lemma headWorld_config w :
  search_path (db (headWorld w)) = search_path (db w) /\
  session_user (db (headWorld w)) = session_user (db w) /\
  current_schema (db (headWorld w)) = current_schema (db w).
Proof. unfold headWorld. simpl. by destruct (ledger (db w)) eqn:E. Qed.

(** The transaction of [applyMigrations] as one equation. *)
Lemma applyTransaction_eq catalog lookup w :
  applyTransaction catalog lookup w =
  match firstFailure lookup (merge_sort rowLe (ensured (db w)).2) with
  | Some e => (inl e, headWorld w)
  | None =>
      match forOf (pendingFiles catalog (ensured (db w)).2)
              (fun f => applyMigration f (nextRound (ensured (db w)).2))
              (headWorld w) with
      | (inr _, w') => (inr (length (pendingFiles catalog (ensured (db w)).2)), w')
      | (inl e, w') => (inl e, w')
      end
  end.
Proof.
  unfold applyTransaction, ensureMigrationsTableExists, lockMigrationsTable,
    getMigrations, pendingFiles, ensured, headWorld.
  unfold bind at 1 2 3 4. unfold query.
  destruct (ledger (db w)) as [[s rows]|] eqn:EL; simpl; rewrite ?EL; simpl;
    rewrite ?EL; simpl.
  - rewrite forOf_check.
    destruct (firstFailure lookup (merge_sort rowLe rows)) as [e|]; [done|].
    unfold bind, ret. rewrite lastRound_sorted.
    by destruct (forOf _ _ _) as [[e|[]] w2].
  - unfold bind, ret. by destruct (forOf _ _ _) as [[e|[]] w2].
Qed.

(** [applyMigrations] as one equation. *)
Lemma applyMigrations_eq baseDir w :
  applyMigrations baseDir w =
  match getMigrationFiles baseDir w with
  | (inl e, w1) => (inr false, emit (ConsoleError ["Failed"; message e]) w1)
  | (inr catalog, w1) =>
      match applyTransaction catalog (lookupOf catalog)
              (emit (Sql (Begin serializable)) w1) with
      | (inr n, w2) =>
          (inr true,
           emit (ConsoleLog ["Applied"; pretty n +:+ " migrations"])
             (emit (Sql Commit) w2))
      | (inl e, w2) =>
          (inr false,
           emit (ConsoleError ["Failed"; message e])
             (emit (Sql Rollback) (withDb (db w1) w2)))
      end
  end.
Proof.
  unfold applyMigrations, tryCatch. unfold bind at 1.
  destruct (getMigrationFiles baseDir w) as [[e|catalog] w1]; [done|].
  fold (lookupOf catalog). unfold bind at 1, begin.
  by destruct (applyTransaction _ _ _) as [[e|n] w2].
Qed.

(** One script and its ledger row. *)
Lemma applyMigration_ok f round w s rows :
  ledger (db w) = Some (s, rows) ->
  let runs :=
    (exists ts', runScripts (fs w) [MigrationFile.path f] (tables (db w)) = Some ts') /\
    (MigrationFile.name f ∉ map Migration.name rows) /\
    intMin <= round <= intMax in
  (forall w', applyMigration f round w = (inr tt, w') -> runs) /\
  (runs -> exists w', applyMigration f round w = (inr tt, w')).
Proof.
  intros EL. unfold applyMigration, sqlFile, insertMigration. munfold. simpl.
  destruct (readFile (fs w) (MigrationFile.path f)) as [content|].
  2:{ split; [done|by intros [[? ?] _]]. }
  destruct (execSql content (tables (db w))) as [msg|ts]; simpl.
  { split; [done|by intros [[? ?] _]]. }
  rewrite EL. simpl.
  case_bool_decide as Hn; [split; [done|tauto]|].
  case_bool_decide as Hr.
  - split; [intros _ _|intros _; eauto]. eauto.
  - split; [done|tauto].
Qed.

Lemma applyMigration_tables f round w w' :
  applyMigration f round w = (inr tt, w') ->
  runScripts (fs w) [MigrationFile.path f] (tables (db w)) = Some (tables (db w')).
Proof.
  unfold applyMigration, sqlFile, insertMigration. munfold. simpl.
  destruct (readFile (fs w) (MigrationFile.path f)) as [content|]; [|done].
  destruct (execSql content (tables (db w))) as [msg|ts]; simpl; [done|].
  destruct (ledger (db w)) as [[s rows]|]; simpl; [|done].
  case_bool_decide; [done|]. case_bool_decide; [|done].
  by intros [= <-].
Qed.

Lemma runScripts_cons f p rest ts :
  runScripts f (p :: rest) ts =
  match runScripts f [p] ts with
  | Some ts' => runScripts f rest ts'
  | None => None
  end.
Proof.
  simpl. destruct (readFile f p) as [content|]; [|done].
  by destruct (execSql content ts).
Qed.

(** What a batch that runs to its end tells about its files. *)
Lemma forOf_apply_inv round pending : forall w w' s rows,
  ledger (db w) = Some (s, rows) ->
  forOf pending (fun f => applyMigration f round) w = (inr tt, w') ->
  (pending = [] \/ intMin <= round <= intMax) /\
  NoDup (map MigrationFile.name pending) /\
  (forall f, f ∈ pending -> MigrationFile.name f ∉ map Migration.name rows) /\
  runScripts (fs w) (map MigrationFile.path pending) (tables (db w)) =
    Some (tables (db w')).
Proof.
  induction pending as [|f pending IH]; intros w w' s rows EL.
  - simpl. intros [= <-]. repeat split; [by left|constructor|].
    intros f Hf. by apply elem_of_nil in Hf.
  - simpl. unfold bind at 1.
    destruct (applyMigration f round w) as [[e|[]] w1] eqn:E1; [done|].
    intros E2.
    destruct (proj1 (applyMigration_ok f round w s rows EL) _ E1)
      as (_ & Hfresh & Hrange).
    pose proof (applyMigration_tables _ _ _ _ E1) as Ht.
    apply applyMigration_cases in E1 as (F1 & _ & _ & _ & _ & L1).
    specialize (L1 _ _ EL).
    destruct (IH _ _ _ _ L1 E2) as (_ & Hnd & Hfr & Hrun).
    split; [by right|]. split; [|split].
    + constructor; [|done]. intros Hin.
      apply list_elem_of_fmap in Hin as (g & Hg & Hgin).
      apply (Hfr g Hgin). rewrite <- Hg, map_app. simpl.
      apply elem_of_app. right. apply elem_of_cons. by left.
    + intros g [->|Hg]%elem_of_cons; [done|].
      intros Hin. apply (Hfr g Hg). rewrite map_app. apply elem_of_app. by left.
    + change (runScripts (fs w)
                (MigrationFile.path f :: map MigrationFile.path pending)
                (tables (db w)) = Some (tables (db w'))).
      rewrite runScripts_cons, Ht. by rewrite <- F1.
Qed.

(** A batch whose scripts run and whose names are new runs to its end. *)
Lemma forOf_apply_run round pending : forall w s rows ts',
  ledger (db w) = Some (s, rows) ->
  (pending = [] \/ intMin <= round <= intMax) ->
  NoDup (map MigrationFile.name pending) ->
  (forall f, f ∈ pending -> MigrationFile.name f ∉ map Migration.name rows) ->
  runScripts (fs w) (map MigrationFile.path pending) (tables (db w)) = Some ts' ->
  exists w',
    forOf pending (fun f => applyMigration f round) w = (inr tt, w') /\
    tables (db w') = ts'.
Proof.
  induction pending as [|f pending IH]; intros w s rows ts' EL Hr Hnd Hfr Hrun.
  - simpl in *. injection Hrun as <-. by exists w.
  - destruct Hr as [?|Hr]; [done|].
    change (map MigrationFile.path (f :: pending))
      with (MigrationFile.path f :: map MigrationFile.path pending) in Hrun.
    rewrite runScripts_cons in Hrun.
    destruct (runScripts (fs w) [MigrationFile.path f] (tables (db w)))
      as [ts1|] eqn:E1; [|done].
    apply NoDup_cons in Hnd as [Hf Hnd].
    destruct (proj2 (applyMigration_ok f round w s rows EL)) as [w1 Ew1].
    { split; [eauto|]. split; [|done]. apply Hfr, elem_of_cons. by left. }
    pose proof (applyMigration_tables _ _ _ _ Ew1) as Ht.
    rewrite E1 in Ht. injection Ht as ->.
    pose proof Ew1 as Ec.
    apply applyMigration_cases in Ec as (F1 & _ & _ & _ & _ & L1).
    specialize (L1 _ _ EL).
    destruct (IH w1 s (rows ++ [toRow round f]) ts' L1) as (w' & E' & T').
    + by right.
    + done.
    + intros g Hg. rewrite map_app. simpl. intros [Hin|Hin]%elem_of_app.
      * revert Hin. apply Hfr, elem_of_cons. by right.
      * apply list_elem_of_singleton in Hin. apply Hf.
        rewrite <- Hin. apply list_elem_of_fmap. eauto.
    + by rewrite F1.
    + exists w'. split; [|done]. simpl. unfold bind at 1. by rewrite Ew1.
Qed.

End ApplySteps.

(** ** The apply operation: more of its behaviour *)

Section ApplyExtras.

Context `{Collaborators}.

#[global] Instance roundLe_trans : Transitive roundLe.
Proof. intros a b c. unfold roundLe. lia. Qed.

Lemma firstFailure_Forall lookup ms :
  Forall (fun m => checkFailure lookup m = None) ms -> firstFailure lookup ms = None.
Proof. induction 1 as [|m ms Hm _ IH]; [done|]. simpl. by rewrite Hm. Qed.

Lemma firstFailure_matching catalog rows :
  (forall m, m ∈ rows ->
     exists f, catalogFile catalog (Migration.name m) = Some f /\
               Migration.checksum m = MigrationFile.checksum f) ->
  firstFailure (lookupOf catalog) (merge_sort rowLe rows) = None.
Proof.
  intros Hm. apply firstFailure_Forall, Forall_forall. intros m Hin.
  rewrite merge_sort_Permutation in Hin.
  destruct (Hm m Hin) as (f & Hf & Hc).
  rewrite (checkFailure_file _ _ _ Hf). by rewrite bool_decide_eq_false_2 by tauto.
Qed.

Lemma filter_nil {A} (p : A -> bool) l :
  (forall x, x ∈ l -> p x = false) -> List.filter p l = [].
Proof.
  induction l as [|x l IH]; [done|]. intros Hp. simpl.
  rewrite (Hp x) by (apply elem_of_cons; by left).
  apply IH. intros y Hy. apply Hp, elem_of_cons. by right.
Qed.

Lemma elem_of_pendingFiles catalog rows f :
  f ∈ pendingFiles catalog rows <->
  f ∈ catalog /\ (MigrationFile.name f ∉ map Migration.name rows) /\
  (MigrationFile.name f ∉ JsObject.prototypeKeys).
Proof.
  unfold pendingFiles. rewrite pendingOf_spec, list_elem_of_In, List.filter_In.
  rewrite <- list_elem_of_In, andb_true_iff, !bool_decide_eq_true.
  by rewrite merge_sort_Permutation.
Qed.

Lemma NoDup_map_filter {A B} (h : A -> B) (p : A -> bool) l :
  NoDup (map h l) -> NoDup (map h (List.filter p l)).
Proof.
  induction l as [|x l IH]; [done|]. simpl. intros [Hx Hl]%NoDup_cons.
  destruct (p x); [|by apply IH]. simpl. apply NoDup_cons. split; [|by apply IH].
  intros Hin. apply Hx. apply list_elem_of_fmap in Hin as (y & -> & Hy).
  apply list_elem_of_In, List.filter_In in Hy as [Hy _].
  apply list_elem_of_fmap. exists y. by rewrite list_elem_of_In.
Qed.

Lemma NoDup_map_eq {A B} (h : A -> B) l x y :
  NoDup (map h l) -> x ∈ l -> y ∈ l -> h x = h y -> x = y.
Proof.
  induction l as [|z l IH]; intros Hnd Hx Hy E; [by apply elem_of_nil in Hx|].
  simpl in Hnd. apply NoDup_cons in Hnd as [Hz Hnd].
  apply elem_of_cons in Hx as [->|Hx]; apply elem_of_cons in Hy as [->|Hy].
  - done.
  - exfalso. apply Hz. rewrite E. apply list_elem_of_fmap. eauto.
  - exfalso. apply Hz. rewrite <- E. apply list_elem_of_fmap. eauto.
  - by apply IH.
Qed.

(** A successful call, taken apart. *)
Lemma applyMigrations_inv baseDir w w' :
  applyMigrations baseDir w = (inr true, w') ->
  exists catalog w2,
    getMigrationFiles baseDir w = (inr catalog, w) /\
    firstFailure (lookupOf catalog) (merge_sort rowLe (ledgerRows (db w))) = None /\
    forOf (pendingFiles catalog (ledgerRows (db w)))
      (fun f => applyMigration f (nextRound (ledgerRows (db w))))
      (headWorld (emit (Sql (Begin serializable)) w)) = (inr tt, w2) /\
    db w' = db w2 /\ fs w' = fs w.
Proof.
  rewrite applyMigrations_eq.
  destruct (getMigrationFiles baseDir w) as [[e|catalog] w1] eqn:EG; [done|].
  pose proof (getMigrationFiles_world _ _ _ _ EG) as ->.
  rewrite applyTransaction_eq. simpl db. rewrite ensured_rows.
  destruct (firstFailure _ _) as [e|] eqn:EFF; [done|].
  destruct (forOf _ _ _) as [[e|[]] w2] eqn:EF; [done|].
  intros [= <-]. exists catalog, w2. repeat split; try done. simpl.
  apply forOf_apply_cases in EF as (F & _). by simpl in F.
Qed.

(** A call that finds every ledger row matched and nothing pending. *)
Lemma applyMigrations_idle baseDir w catalog :
  getMigrationFiles baseDir w = (inr catalog, w) ->
  firstFailure (lookupOf catalog) (merge_sort rowLe (ledgerRows (db w))) = None ->
  pendingFiles catalog (ledgerRows (db w)) = [] ->
  exists w',
    applyMigrations baseDir w = (inr true, w') /\
    fs w' = fs w /\
    tables (db w') = tables (db w) /\
    ledger (db w') = Some (ensured (db w)) /\
    (ledger (db w) <> None -> db w' = db w) /\
    trace w' = trace w ++
      [Sql (Begin serializable); Sql CreateMigrationsTable; Sql LockMigrationsTable;
       Sql SelectMigrations; Sql Commit; ConsoleLog ["Applied"; "0 migrations"]].
Proof.
  intros EG EF EP. rewrite applyMigrations_eq, EG, applyTransaction_eq.
  simpl db. rewrite ensured_rows, EF, EP. simpl.
  eexists. split; [done|]. simpl. repeat split.
  - by destruct (ledger (db w)) eqn:E.
  - unfold ensured. by destruct (ledger (db w)) eqn:E.
  - by destruct (ledger (db w)) eqn:E.
  - by rewrite <- !app_assoc.
Qed.

Lemma getMigrationFiles_fails baseDir w :
  catalogUnreadable (fs w) baseDir ->
  exists e, getMigrationFiles baseDir w = (inl e, w) /\ kind e = SystemError.
Proof.
  intros [EN|(listing & file & EL & Hin & Hsql & Hnone)].
  { unfold getMigrationFiles, fsReaddir. munfold. rewrite EN. eauto. }
  destruct (getMigrationFiles baseDir w) as [r w'] eqn:EG.
  pose proof (getMigrationFiles_world _ _ _ _ EG) as ->.
  destruct r as [e|catalog].
  - exists e. split; [done|].
    unfold getMigrationFiles, fsReaddir in EG. munfold. rewrite EL in EG.
    clear EL Hin. revert EG. generalize (@nil MigrationFile.t).
    induction listing as [|x rest IH]; intros result; simpl; [done|].
    destruct (Js.endsWith ".sql" x); [|apply IH].
    unfold computeChecksum. munfold.
    destruct (readFile (fs w) (Path.join baseDir x)); [apply IH|].
    by intros [= <-].
  - apply getMigrationFiles_ok in EG as (listing' & EL' & _ & Hall).
    rewrite EL in EL'. injection EL' as <-. rewrite Forall_forall in Hall.
    destruct (Hall file) as [c Hc]; [|congruence].
    apply list_elem_of_In, List.filter_In. by rewrite <- list_elem_of_In.
Qed.

(** X3. A catalog that cannot be read stops the call before any statement
    is sent to the database: no transaction is opened, the ledger table
    is not created, and the call returns [false] after reporting the
    error. *)
Theorem applyMigrations_catalog_failure baseDir w :
  catalogUnreadable (fs w) baseDir ->
  exists msg,
    applyMigrations baseDir w =
    (inr false,
     {| fs := fs w; db := db w;
        trace := trace w ++ [ConsoleError ["Failed"; msg]] |}).
Proof.
  intros Hu. destruct (getMigrationFiles_fails baseDir w Hu) as (e & EG & _).
  exists (message e). by rewrite applyMigrations_eq, EG.
Qed.

(** X4. The catalog read fails exactly when the directory cannot be listed
    or one of its entries with the .sql extension cannot be read, whatever
    the other entries are; the failure is a system error and the world is
    left as it was. *)
Theorem getMigrationFiles_failure baseDir w :
  (catalogUnreadable (fs w) baseDir ->
   exists e, getMigrationFiles baseDir w = (inl e, w) /\ kind e = SystemError) /\
  (forall e w',
     getMigrationFiles baseDir w = (inl e, w') ->
     w' = w /\ kind e = SystemError /\ catalogUnreadable (fs w) baseDir).
Proof.
  split; [apply getMigrationFiles_fails|].
  intros e w' EG. pose proof (getMigrationFiles_world _ _ _ _ EG) as ->.
  split; [done|].
  assert (catalogUnreadable (fs w) baseDir) as Hu.
  { unfold getMigrationFiles, fsReaddir in EG. munfold.
    destruct (readdir (fs w) baseDir) as [listing|] eqn:EL; [|by left].
    apply collect_cases in EG as [_ (file & Hin & Hsql & Hnone)].
    right. by exists listing, file. }
  split; [|done].
  destruct (getMigrationFiles_fails baseDir w Hu) as (e' & EG' & He').
  rewrite EG in EG'. by injection EG' as ->.
Qed.

(** X5. When every ledger row matches its file and every catalog file is in
    the ledger, the call succeeds without running a script: tables and
    ledger rows stay as they are (the ledger table is created if it was
    missing) and the count reported is 0. *)
Theorem applyMigrations_nothing_pending baseDir w catalog :
  getMigrationFiles baseDir w = (inr catalog, w) ->
  (forall m, m ∈ ledgerRows (db w) ->
     exists f, catalogFile catalog (Migration.name m) = Some f /\
               Migration.checksum m = MigrationFile.checksum f) ->
  (forall f, f ∈ catalog -> MigrationFile.name f ∈ map Migration.name (ledgerRows (db w))) ->
  exists w',
    applyMigrations baseDir w = (inr true, w') /\
    tables (db w') = tables (db w) /\
    ledgerRows (db w') = ledgerRows (db w) /\
    ledger (db w') <> None /\
    newEvents w w' =
      [Sql (Begin serializable); Sql CreateMigrationsTable; Sql LockMigrationsTable;
       Sql SelectMigrations; Sql Commit; ConsoleLog ["Applied"; "0 migrations"]].
Proof.
  intros EG Hm Hc.
  destruct (applyMigrations_idle baseDir w catalog EG) as (w' & EA & _ & T & L & _ & E).
  - by apply firstFailure_matching.
  - apply filter_nil. intros f Hf. apply not_true_is_false. intros Hp.
    assert (f ∈ pendingFiles catalog (ledgerRows (db w))) as Hin.
    { apply list_elem_of_In, List.filter_In. by rewrite <- list_elem_of_In. }
    apply elem_of_pendingFiles in Hin as (_ & Hn & _). by apply Hn, Hc.
  - exists w'. repeat split; try done.
    + unfold ledgerRows at 1. rewrite L. by rewrite <- ensured_rows; destruct (ensured (db w)).
    + by rewrite L.
    + by apply newEvents_app.
Qed.

(** X6. Apply is idempotent.  Right after a successful call a second call
    on the same directory succeeds, runs no script and leaves the database
    exactly as the first call left it. *)
Theorem applyMigrations_twice baseDir w w1 :
  applyMigrations baseDir w = (inr true, w1) ->
  exists w2,
    applyMigrations baseDir w1 = (inr true, w2) /\
    db w2 = db w1 /\
    newEvents w1 w2 =
      [Sql (Begin serializable); Sql CreateMigrationsTable; Sql LockMigrationsTable;
       Sql SelectMigrations; Sql Commit; ConsoleLog ["Applied"; "0 migrations"]].
Proof.
  intros EA.
  apply applyMigrations_inv in EA as (catalog & w2 & EG & EF & EL & D & F).
  set (rows := ledgerRows (db w)) in *.
  set (pending := pendingFiles catalog rows) in *.
  set (w0 := headWorld (emit (Sql (Begin serializable)) w)) in *.
  assert (ledger (db w0) = Some ((ensured (db w)).1, rows)) as L0.
  { unfold w0. rewrite headWorld_ledger. simpl. unfold rows.
    rewrite <- ensured_rows. by destruct (ensured (db w)). }
  destruct (forOf_apply_inv _ _ _ _ _ _ L0 EL) as (_ & Hnd & Hfr & _).
  apply forOf_apply_cases in EL as (_ & _ & _ & _ & _ & L2).
  specialize (L2 _ _ L0). rewrite <- D in L2.
  assert (ledgerRows (db w1) = rows ++ map (toRow (nextRound rows)) pending) as R1.
  { unfold ledgerRows at 1. by rewrite L2. }
  destruct (applyMigrations_idle baseDir w1 catalog) as (w3 & EA & _ & _ & _ & D3 & T3).
  - eapply getMigrationFiles_fs; [|exact EG]. done.
  - rewrite R1. apply firstFailure_Forall, Forall_forall. intros m Hm.
    rewrite merge_sort_Permutation in Hm. apply elem_of_app in Hm as [Hm|Hm].
    + apply firstFailure_None in EF. rewrite Forall_forall in EF.
      apply EF. by rewrite merge_sort_Permutation.
    + apply list_elem_of_fmap in Hm as (f & -> & Hf).
      pose proof Hf as Hf'. apply elem_of_pendingFiles in Hf' as (Hc & Hn & Hk).
      destruct (catalogFile catalog (MigrationFile.name f)) as [g|] eqn:Eg.
      * pose proof (catalogFile_name _ _ _ Eg) as [Hname Hg].
        assert (g ∈ pending) as Hgp.
        { apply elem_of_pendingFiles. by rewrite Hname. }
        assert (g = f) as -> by (by eapply NoDup_map_eq).
        change (MigrationFile.name f) with (Migration.name (toRow (nextRound rows) f)) in Eg.
        rewrite (checkFailure_file _ _ _ Eg). by rewrite bool_decide_eq_false_2 by tauto.
      * apply fromEntries_None in Eg. exfalso. apply Eg.
        rewrite <- list_fmap_compose. apply list_elem_of_fmap. by exists f.
  - rewrite R1. apply filter_nil. intros f Hf. apply not_true_is_false. intros Hp.
    assert (f ∈ pendingFiles catalog (rows ++ map (toRow (nextRound rows)) pending)) as Hin.
    { apply list_elem_of_In, List.filter_In. by rewrite <- list_elem_of_In. }
    apply elem_of_pendingFiles in Hin as (Hc & Hn & Hk). apply Hn.
    rewrite map_app. apply elem_of_app.
    destruct (decide (MigrationFile.name f ∈ map Migration.name rows)) as [?|Hnr];
      [by left|right].
    rewrite <- list_fmap_compose. apply list_elem_of_fmap. exists f.
    split; [done|]. by apply elem_of_pendingFiles.
  - exists w3. split; [done|]. split; [apply D3; by rewrite L2|].
    by apply newEvents_app.
Qed.

(** X7. The names of the ledger stay distinct.  Whatever the outcome of a
    call, a ledger without two rows of one name is left without two rows
    of one name. *)
Theorem applyMigrations_names_distinct baseDir w r w' :
  NoDup (map Migration.name (ledgerRows (db w))) ->
  applyMigrations baseDir w = (r, w') ->
  NoDup (map Migration.name (ledgerRows (db w'))).
Proof.
  intros Hnd EA.
  destruct r as [e|[]].
  - rewrite applyMigrations_eq in EA.
    destruct (getMigrationFiles baseDir w) as [[?|?] ?]; [done|].
    by destruct (applyTransaction _ _ _) as [[?|?] ?].
  - apply applyMigrations_inv in EA as (catalog & w2 & EG & EF & EL & D & F).
    set (rows := ledgerRows (db w)) in *.
    assert (ledger (db (headWorld (emit (Sql (Begin serializable)) w))) =
            Some ((ensured (db w)).1, rows)) as L0.
    { rewrite headWorld_ledger. simpl. unfold rows.
      rewrite <- ensured_rows. by destruct (ensured (db w)). }
    destruct (forOf_apply_inv _ _ _ _ _ _ L0 EL) as (_ & Hp & Hfr & _).
    apply forOf_apply_cases in EL as (_ & _ & _ & _ & _ & L2).
    specialize (L2 _ _ L0). rewrite <- D in L2.
    unfold ledgerRows at 1. rewrite L2, map_app.
    apply NoDup_app. split; [done|]. split.
    + intros n Hn Hin. rewrite <- list_fmap_compose in Hin.
      apply list_elem_of_fmap in Hin as (f & -> & Hf). by apply (Hfr f Hf).
    + by rewrite <- list_fmap_compose.
  - apply applyMigrations_cases in EA as [_ [(e & _ & _ & D & _)|(catalog & _ & R)]];
      [by rewrite D|].
    destruct (firstFailure _ _); [destruct R as (_ & D & _); by rewrite D|].
    destruct R as [(? & _)|(_ & D & _)]; [done|by rewrite D].
Qed.

(** X8. Rounds never decrease in insertion order.  A ledger whose rounds do
    not decrease along its rows keeps that property through any call, and
    the rows of a new batch carry a round above every round recorded
    before. *)
Theorem applyMigrations_rounds_sorted baseDir w r w' :
  Sorted roundLe (ledgerRows (db w)) ->
  applyMigrations baseDir w = (r, w') ->
  Sorted roundLe (ledgerRows (db w')) /\
  forall old new,
    old ∈ ledgerRows (db w) -> new ∈ ledgerRows (db w') ->
    new ∉ ledgerRows (db w) -> Migration.round old < Migration.round new.
Proof.
  intros HS EA.
  apply applyMigrations_cases in EA as [_ [(e & _ & _ & D & _)|(catalog & _ & R)]].
  { rewrite D. split; [done|]. by intros old new _ ? ?. }
  destruct (firstFailure _ _).
  { destruct R as (_ & D & _). rewrite D. split; [done|]. by intros old new _ ? ?. }
  destruct R as [(_ & _ & L & _)|(_ & D & _)].
  2:{ rewrite D. split; [done|]. by intros old new _ ? ?. }
  rewrite ensured_rows in L. set (rows := ledgerRows (db w)) in *.
  assert (ledgerRows (db w') =
          rows ++ map (toRow (nextRound rows)) (pendingFiles catalog rows)) as ->.
  { unfold ledgerRows at 1. by rewrite L. }
  assert (forall old, old ∈ rows -> Migration.round old < nextRound rows) as Hlt.
  { intros old Hold. unfold nextRound.
    destruct (maxRound rows) as [m|] eqn:EM.
    - pose proof (maxRound_ge _ _ _ EM Hold). lia.
    - apply maxRound_None in EM. rewrite EM in Hold. by apply elem_of_nil in Hold. }
  split.
  - apply StronglySorted_Sorted, StronglySorted_app_2.
    + intros x1 x2 Hx1 Hx2. apply list_elem_of_fmap in Hx2 as (f & -> & _).
      unfold roundLe. simpl. specialize (Hlt x1 Hx1). lia.
    + apply Sorted_StronglySorted; [apply roundLe_trans|exact HS].
    + generalize (pendingFiles catalog rows). intros l.
      induction l as [|f l IH]; [constructor|]. simpl. constructor; [done|].
      apply Forall_forall. intros x Hx. apply list_elem_of_fmap in Hx as (g & -> & _).
      unfold roundLe. simpl. lia.
  - intros old new Hold Hnew Hn. apply elem_of_app in Hnew as [?|Hnew]; [done|].
    apply list_elem_of_fmap in Hnew as (f & -> & _). simpl. by apply Hlt.
Qed.

(** X9. When the catalog can be read and holds no two files of one name,
    every ledger row matches its file, the pending scripts run one after
    the other without an error and the next round is an [INT], the call
    succeeds: the tables are those the scripts leave and the ledger gains
    one row per pending file. *)
Theorem applyMigrations_succeeds baseDir w catalog ts' :
  getMigrationFiles baseDir w = (inr catalog, w) ->
  NoDup (map MigrationFile.name catalog) ->
  (forall m, m ∈ ledgerRows (db w) ->
     exists f, catalogFile catalog (Migration.name m) = Some f /\
               Migration.checksum m = MigrationFile.checksum f) ->
  runScripts (fs w)
    (map MigrationFile.path (pendingFiles catalog (ledgerRows (db w))))
    (tables (db w)) = Some ts' ->
  (pendingFiles catalog (ledgerRows (db w)) = [] \/
   intMin <= nextRound (ledgerRows (db w)) <= intMax) ->
  exists w',
    applyMigrations baseDir w = (inr true, w') /\
    tables (db w') = ts' /\
    ledgerRows (db w') =
      ledgerRows (db w) ++
      map (toRow (nextRound (ledgerRows (db w))))
        (pendingFiles catalog (ledgerRows (db w))).
Proof.
  intros EG Hnd Hm Hrun Hr.
  set (rows := ledgerRows (db w)) in *.
  set (w0 := headWorld (emit (Sql (Begin serializable)) w)).
  assert (ledger (db w0) = Some ((ensured (db w)).1, rows)) as L0.
  { unfold w0. rewrite headWorld_ledger. simpl. unfold rows.
    rewrite <- ensured_rows. by destruct (ensured (db w)). }
  destruct (forOf_apply_run (nextRound rows) (pendingFiles catalog rows) w0 _ _ ts' L0)
    as (w2 & EF & T2).
  - done.
  - unfold pendingFiles, pendingOf. by apply NoDup_map_filter.
  - intros f Hf. by apply elem_of_pendingFiles in Hf as (_ & ? & _).
  - unfold w0. by rewrite headWorld_tables.
  - rewrite applyMigrations_eq, EG, applyTransaction_eq.
    simpl db. rewrite ensured_rows. fold rows. fold w0.
    rewrite (firstFailure_matching _ _ Hm), EF.
    eexists. split; [done|]. simpl. split; [done|].
    apply forOf_apply_cases in EF as (_ & _ & _ & _ & _ & L2).
    unfold ledgerRows at 1. by rewrite (L2 _ _ L0).
Qed.

(** X10. After a successful call the tables of the database are those the
    pending scripts leave when run one after the other, in catalog order,
    on the tables before the call. *)
Theorem applyMigrations_tables baseDir w w' :
  applyMigrations baseDir w = (inr true, w') ->
  exists catalog,
    getMigrationFiles baseDir w = (inr catalog, w) /\
    runScripts (fs w)
      (map MigrationFile.path (pendingFiles catalog (ledgerRows (db w))))
      (tables (db w)) = Some (tables (db w')).
Proof.
  intros EA.
  apply applyMigrations_inv in EA as (catalog & w2 & EG & EF & EL & D & F).
  exists catalog. split; [done|].
  assert (ledger (db (headWorld (emit (Sql (Begin serializable)) w))) =
          Some ((ensured (db w)).1, ledgerRows (db w))) as L0.
  { rewrite headWorld_ledger. simpl.
    rewrite <- ensured_rows. by destruct (ensured (db w)). }
  destruct (forOf_apply_inv _ _ _ _ _ _ L0 EL) as (_ & _ & _ & Hrun).
  rewrite headWorld_tables in Hrun. simpl in Hrun. by rewrite D.
Qed.

End ApplyExtras.
(** ** The reset operation: the drop transaction and the replay *)

Section ResetExtras.

Context `{Collaborators}.

Lemma without_nil d : without [] d = d.
Proof.
  destruct d as [sp su cs l ts]. unfold without, setLedger, setTables. simpl.
  f_equal.
  - by destruct l as [[s rows]|].
  - by apply filter_true, Forall_forall.
Qed.

Lemma bool_decide_elem_of_app (x : string * string) g1 g2 :
  bool_decide (x ∈ g1 ++ g2) = bool_decide (x ∈ g1) || bool_decide (x ∈ g2).
Proof.
  apply eq_true_iff_eq.
  by rewrite orb_true_iff, !bool_decide_eq_true, elem_of_app.
Qed.

Lemma without_without g1 g2 d : without g2 (without g1 d) = without (g1 ++ g2) d.
Proof.
  destruct d as [sp su cs l ts]. unfold without, setLedger, setTables. simpl.
  f_equal.
  - destruct l as [[s rows]|]; [|done].
    rewrite bool_decide_elem_of_app.
    by destruct (bool_decide ((s, ledgerTable) ∈ g1)).
  - rewrite filter_filter. apply List.filter_ext. intros t.
    by rewrite bool_decide_elem_of_app, negb_orb.
Qed.

Lemma elem_of_pgTables_without gone d x :
  x ∈ pgTables (without gone d) <-> x ∈ pgTables d /\ x ∉ gone.
Proof.
  unfold pgTables, without, setLedger, setTables. simpl.
  rewrite !elem_of_app, !list_elem_of_fmap. split.
  - intros [(t & -> & Ht)|Hl].
    + apply list_elem_of_In, List.filter_In in Ht as [Ht Hn].
      apply negb_true_iff, bool_decide_eq_false in Hn.
      split; [|done]. left. exists t. by rewrite list_elem_of_In.
    + destruct (ledger d) as [[s rows]|]; [|by apply elem_of_nil in Hl].
      case_bool_decide as Hg; [by apply elem_of_nil in Hl|].
      apply list_elem_of_singleton in Hl as ->. split; [by right; left|done].
  - intros [[(t & -> & Ht)|Hl] Hn].
    + left. exists t. split; [done|].
      apply list_elem_of_In, List.filter_In. split; [by apply list_elem_of_In|].
      by apply negb_true_iff, bool_decide_eq_false.
    + right. destruct (ledger d) as [[s rows]|]; [|done].
      apply list_elem_of_singleton in Hl as ->.
      rewrite bool_decide_eq_false_2 by done. by left.
Qed.

Lemma elem_of_tables_without gone d t :
  t ∈ tables (without gone d) <->
  t ∈ tables d /\ (schemaname t, tablename t) ∉ gone.
Proof.
  unfold without, setLedger, setTables. simpl.
  rewrite list_elem_of_In, List.filter_In, <- list_elem_of_In.
  by rewrite negb_true_iff, bool_decide_eq_false.
Qed.

Lemma ledger_without gone d s rows :
  ledger (without gone d) = Some (s, rows) <->
  ledger d = Some (s, rows) /\ (s, ledgerTable) ∉ gone.
Proof.
  unfold without, setLedger, setTables. simpl.
  destruct (ledger d) as [[s0 rows0]|]; [|by split; [|intros []]].
  case_bool_decide as Hg.
  - split; [done|]. intros [[= -> ->] ?]. done.
  - split; [intros [= -> ->]; done|]. by intros [].
Qed.

(** One [DROP TABLE IF EXISTS ... CASCADE]. *)
Lemma dropTable_cases schema table w r w' :
  dropTable schema table w = (r, w') ->
  fs w' = fs w /\
  match r with
  | inr _ =>
      trace w' = trace w ++ [Sql (DropTable schema table)] /\
      ((schema, table) ∉ pgTables (db w')) /\
      exists gone,
        db w' = without gone (db w) /\
        forall x, x ∈ gone ->
          x = (schema, table) \/
          exists names deps, dropCascade schema table names = inr deps /\ x ∈ deps
  | inl e =>
      db w' = db w /\ kind e = PostgresError /\
      (schema, table) ∈ pgTables (db w) /\
      (exists names, dropCascade schema table names = inl (message e)) /\
      trace w' = trace w ++ [SqlFailed (DropTable schema table) (message e)]
  end.
Proof.
  unfold dropTable, query. case_bool_decide as Hin.
  - destruct (dropCascade schema table (pgTables (db w))) as [msg|deps] eqn:ED;
      intros [= <- <-]; simpl.
    + split; [done|]. repeat split; try done. by exists (pgTables (db w)).
    + split; [done|]. split; [done|]. split.
      * rewrite elem_of_pgTables_without. intros [_ Hn]. apply Hn.
        apply elem_of_cons. by left.
      * exists ((schema, table) :: deps). split; [done|].
        intros x [->|Hx]%elem_of_cons; [by left|].
        right. by exists (pgTables (db w)), deps.
  - intros [= <- <-]. simpl. split; [done|]. split; [done|]. split; [done|].
    exists []. split; [by rewrite without_nil|]. by intros x ?%elem_of_nil.
Qed.

(** The loop over the tables found. *)
Lemma forOf_dropTable found : forall w r w',
  forOf found (fun table => dropTable table.1 table.2) w = (r, w') ->
  fs w' = fs w /\
  match r with
  | inr _ =>
      trace w' = trace w ++ map (fun t => Sql (DropTable t.1 t.2)) found /\
      exists gone,
        db w' = without gone (db w) /\
        (forall x, x ∈ found -> x ∉ pgTables (db w')) /\
        forall x, x ∈ gone ->
          x ∈ found \/
          exists t names deps,
            t ∈ found /\ dropCascade t.1 t.2 names = inr deps /\ x ∈ deps
  | inl e =>
      kind e = PostgresError /\
      exists done t rest,
        found = done ++ t :: rest /\
        (exists names, dropCascade t.1 t.2 names = inl (message e)) /\
        trace w' = trace w ++ map (fun t => Sql (DropTable t.1 t.2)) done ++
                   [SqlFailed (DropTable t.1 t.2) (message e)]
  end.
Proof.
  induction found as [|[schema table] found IH]; intros w r w'.
  - intros [= <- <-]. split; [done|]. split; [by rewrite app_nil_r|].
    exists []. split; [by rewrite without_nil|].
    split; by intros x ?%elem_of_nil.
  - simpl. unfold bind at 1.
    destruct (dropTable schema table w) as [[e|[]] w1] eqn:ED;
      apply dropTable_cases in ED as [F1 R1].
    + intros [= <- <-]. split; [done|].
      destruct R1 as (_ & K & _ & N & T). split; [done|].
      exists [], (schema, table), found. by repeat split.
    + intros EF. apply IH in EF as [F2 R2]. split; [congruence|].
      destruct R1 as (T1 & Hgone1 & g1 & D1 & Hg1).
      destruct r as [e|[]].
      * destruct R2 as (K & done & t & rest & -> & N & T2). split; [done|].
        exists ((schema, table) :: done), t, rest. split; [done|]. split; [done|].
        rewrite T2, T1. simpl. by rewrite <- !app_assoc.
      * destruct R2 as (T2 & g2 & D2 & Hfound & Hg2). split.
        { rewrite T2, T1. simpl. by rewrite <- app_assoc. }
        exists (g1 ++ g2). split; [by rewrite D2, D1, without_without|]. split.
        { intros x [->|Hx]%elem_of_cons; [|by apply Hfound].
          rewrite D2, elem_of_pgTables_without. by intros [? _]. }
        intros x [Hx|Hx]%elem_of_app.
        { destruct (Hg1 x Hx) as [->|(names & deps & E & Hd)].
          - left. apply elem_of_cons. by left.
          - right. exists (schema, table), names, deps.
            split; [apply elem_of_cons; by left|done]. }
        destruct (Hg2 x Hx) as [?|(t & names & deps & Ht & E & Hd)].
        { left. apply elem_of_cons. by right. }
        right. exists t, names, deps. split; [apply elem_of_cons; by right|done].
Qed.

(** The drop transaction: committed, or rolled back whole by the first
    [DROP] that the database rejects. *)
Lemma begin_dropTransaction w r w' :
  begin "" dropTransaction w = (r, w') ->
  let schemas := resolveSchemas (search_path (db w)) (session_user (db w)) in
  let dropped := List.filter (fun t => bool_decide (t.1 ∈ schemas)) (pgTables (db w)) in
  let head :=
    [Sql (Begin ""); Sql ShowSearchPath; Sql SelectUser; Sql (SelectTables schemas)] in
  fs w' = fs w /\
  match r with
  | inr _ =>
      trace w' = trace w ++ head ++
                 map (fun t => Sql (DropTable t.1 t.2)) dropped ++ [Sql Commit] /\
      exists gone,
        db w' = without gone (db w) /\
        (forall x, x ∈ pgTables (db w') -> x.1 ∉ schemas) /\
        forall x, x ∈ gone ->
          x ∈ dropped \/
          exists t names deps,
            t ∈ dropped /\ dropCascade t.1 t.2 names = inr deps /\ x ∈ deps
  | inl e =>
      db w' = db w /\ kind e = PostgresError /\
      exists done t rest,
        dropped = done ++ t :: rest /\
        (exists names, dropCascade t.1 t.2 names = inl (message e)) /\
        trace w' = trace w ++ head ++
                   map (fun t => Sql (DropTable t.1 t.2)) done ++
                   [SqlFailed (DropTable t.1 t.2) (message e); Sql Rollback]
  end.
Proof.
  intros EB schemas dropped head. revert EB.
  unfold begin, dropTransaction. unfold bind at 1 2 3. unfold query. simpl.
  fold schemas. fold dropped.
  match goal with
  | |- context [forOf dropped ?body ?w0] =>
      destruct (forOf dropped body w0) as [[e|[]] w1] eqn:EF;
      apply forOf_dropTable in EF as [F R]
  end; intros [= <- <-]; simpl in *; (split; [done|]).
  - destruct R as (K & done & t & rest & E & N & T).
    split; [done|]. split; [done|]. exists done, t, rest.
    split; [done|]. split; [done|]. rewrite T. by rewrite <- !app_assoc.
  - destruct R as (T & gone & D & Hfound & Hgone). split.
    { rewrite T. by rewrite <- !app_assoc. }
    exists gone. split; [done|]. split; [|done].
    intros x Hx Hs. apply (Hfound x); [|done].
    rewrite D in Hx. apply elem_of_pgTables_without in Hx as [Hx _].
    apply list_elem_of_In, List.filter_In.
    split; [by apply list_elem_of_In|by apply bool_decide_eq_true].
Qed.

Lemma elem_of_dropped (schemas : list string) d (x : string * string) :
  x ∈ List.filter (fun t => bool_decide (t.1 ∈ schemas)) (pgTables d) <->
  x ∈ pgTables d /\ x.1 ∈ schemas.
Proof.
  by rewrite list_elem_of_In, List.filter_In, <- list_elem_of_In, bool_decide_eq_true.
Qed.

(** What is left once the tables [gone] are removed and no table of the
    schemas remains. *)
Lemma without_left (schemas : list string) gone d d' :
  d' = without gone d ->
  (forall x, x ∈ pgTables d' -> x.1 ∉ schemas) ->
  (forall t, t ∈ tables d' -> t ∈ tables d /\ schemaname t ∉ schemas) /\
  (forall s rows, ledger d' = Some (s, rows) ->
     ledger d = Some (s, rows) /\ s ∉ schemas).
Proof.
  intros D Hnone. split.
  - intros t Ht. pose proof Ht as Ht'.
    rewrite D in Ht. apply elem_of_tables_without in Ht as [Ht _].
    split; [done|]. apply (Hnone (schemaname t, tablename t)).
    unfold pgTables. apply elem_of_app. left.
    apply list_elem_of_fmap. by exists t.
  - intros s rows L. split.
    + rewrite D in L. by apply ledger_without in L as [L _].
    + apply (Hnone (s, ledgerTable)). unfold pgTables. rewrite L.
      apply elem_of_app. right. apply elem_of_cons. by left.
Qed.

(** X11. The drop transaction is committed or rolled back whole.  When it
    commits, no table of the resolved schemas is left, the ledger table
    included; what is left was there before, with its rows; and a table
    of another schema is gone only if the database named it as a
    dependent of a table of the resolved schemas.  When the database
    rejects a [DROP], the transaction is rolled back and the database is
    as it was. *)
Theorem dropTransaction_outcome w r w' :
  begin "" dropTransaction w = (r, w') ->
  let schemas := resolveSchemas (search_path (db w)) (session_user (db w)) in
  match r with
  | inr _ =>
      (forall t, t ∈ tables (db w') -> t ∈ tables (db w) /\ schemaname t ∉ schemas) /\
      (forall s rows, ledger (db w') = Some (s, rows) ->
         ledger (db w) = Some (s, rows) /\ s ∉ schemas) /\
      (forall x, x ∈ pgTables (db w) -> x ∉ pgTables (db w') ->
         x.1 ∈ schemas \/
         exists t names deps,
           t ∈ pgTables (db w) /\ t.1 ∈ schemas /\
           dropCascade t.1 t.2 names = inr deps /\ x ∈ deps) /\
      last (trace w') = Some (Sql Commit)
  | inl e =>
      db w' = db w /\
      last (trace w') = Some (Sql Rollback) /\
      exists t names,
        t ∈ pgTables (db w) /\ t.1 ∈ schemas /\
        dropCascade t.1 t.2 names = inl (message e) /\
        SqlFailed (DropTable t.1 t.2) (message e) ∈ newEvents w w'
  end.
Proof.
  intros EB schemas. apply begin_dropTransaction in EB as [_ R]. fold schemas in R.
  destruct r as [e|[]].
  - destruct R as (D & _ & done & t & rest & E & (names & N) & T).
    split; [done|]. split; [by rewrite T, !app_assoc, last_snoc2|].
    exists t, names.
    assert (t ∈ pgTables (db w) /\ t.1 ∈ schemas) as [Ht Hs].
    { apply elem_of_dropped. rewrite E. apply elem_of_app. right.
      apply elem_of_cons. by left. }
    split; [done|]. split; [done|]. split; [done|].
    erewrite newEvents_app; [|exact T].
    rewrite !elem_of_app. right. right. apply elem_of_cons. by left.
  - destruct R as (T & gone & D & Hnone & Hgone).
    destruct (without_left schemas gone _ _ D Hnone) as [HT HL].
    split; [done|]. split; [done|]. split.
    + intros x Hx Hgone'. destruct (decide (x ∈ gone)) as [Hg|Hg].
      * destruct (Hgone x Hg) as [Hd|(t & names & deps & Hd & E & Hdep)];
          apply elem_of_dropped in Hd as [Ht Hs]; [by left|].
        right. by exists t, names, deps.
      * destruct Hgone'. rewrite D. by apply elem_of_pgTables_without.
    + by rewrite T, !app_assoc, last_snoc.
Qed.

Lemma applyMigrations_total baseDir w :
  exists b w', applyMigrations baseDir w = (inr b, w').
Proof.
  rewrite applyMigrations_eq.
  destruct (getMigrationFiles baseDir w) as [[e|catalog] w1]; [eauto|].
  destruct (applyTransaction _ _ _) as [[e|n] w2]; eauto.
Qed.

(** A reset that goes ahead: the drop transaction, then the replay, in one
    [try]. *)
Lemma resetDatabase_cases baseDir force answer w r w' :
  force = true \/ answer = true ->
  resetDatabase baseDir force answer w = (r, w') ->
  let w0 := if force then w else emit (Prompt confirmMessage true) w in
  (exists e w1,
     begin "" dropTransaction w0 = (inl e, w1) /\
     r = inr false /\ w' = emit (ConsoleError ["Failed"; message e]) w1) \/
  (exists w1,
     begin "" dropTransaction w0 = (inr tt, w1) /\
     applyMigrations baseDir (emit (ConsoleLog ["Reset"; "Tables dropped"]) w1) =
       (r, w')).
Proof.
  intros Hgo ER w0.
  assert (tryCatch
            (begin "" dropTransaction ;;;
             log (ConsoleLog ["Reset"; "Tables dropped"]) ;;;
             applyMigrations baseDir)
            (fun error => log (ConsoleError ["Failed"; message error]) ;;; ret false)
            w0 = (r, w')) as ER'.
  { unfold resetDatabase in ER. unfold w0.
    destruct force; simpl in ER; [exact ER|].
    destruct Hgo as [? | ->]; [done|]. exact ER. }
  clear ER. unfold tryCatch in ER'. unfold bind at 1 in ER'.
  destruct (begin "" dropTransaction w0) as [[e|[]] w1] eqn:EB.
  - left. exists e, w1. split; [done|]. by injection ER' as <- <-.
  - right. exists w1. split; [done|].
    unfold bind at 1, log at 1 in ER'.
    destruct (applyMigrations_total baseDir
                (emit (ConsoleLog ["Reset"; "Tables dropped"]) w1)) as (b & w2 & EA).
    rewrite EA in *. by injection ER' as <- <-.
Qed.

(** [resetDatabase] never throws. *)
Lemma resetDatabase_returns baseDir force answer w :
  exists b w', resetDatabase baseDir force answer w = (inr b, w').
Proof.
  destruct (resetDatabase baseDir force answer w) as [r w'] eqn:ER.
  destruct (decide (force = true \/ answer = true)) as [Hgo|Hno].
  - apply (resetDatabase_cases _ _ _ _ _ _ Hgo) in ER
      as [(e & w1 & _ & -> & _)|(w1 & _ & EA)]; [eauto|].
    destruct (applyMigrations_total baseDir
                (emit (ConsoleLog ["Reset"; "Tables dropped"]) w1)) as (b & w2 & EA').
    rewrite EA' in EA. injection EA as <- <-. eauto.
  - destruct force; [by destruct Hno; left|].
    destruct answer; [by destruct Hno; right|].
    unfold resetDatabase, bind, log, ret in ER. simpl in ER.
    injection ER as <- <-. eauto.
Qed.

Lemma applyMigrations_failed baseDir w w' :
  applyMigrations baseDir w = (inr false, w') ->
  fs w' = fs w /\ db w' = db w /\
  exists evs msg, trace w' = trace w ++ evs ++ [ConsoleError ["Failed"; msg]].
Proof.
  intros EA.
  apply applyMigrations_cases in EA as [F [(e & _ & _ & D & T)|(catalog & _ & R)]].
  - split; [done|]. split; [done|]. by exists [], (message e).
  - split; [done|]. destruct (firstFailure _ _) as [e|].
    + destruct R as (_ & D & T). split; [done|].
      exists ([Sql (Begin serializable)] ++ headEvents ++ [Sql Rollback]), (message e).
      rewrite T. by rewrite <- !app_assoc.
    + destruct R as [(? & _)|(_ & D & evs & msg & T & _)]; [done|].
      split; [done|].
      exists ([Sql (Begin serializable)] ++ headEvents ++ evs ++ [Sql Rollback]), msg.
      rewrite T. by rewrite <- !app_assoc.
Qed.


(** X12. A confirmed or forced reset that returns [false] failed in one of
    two ways, which leave the database in different states.  Either the
    database rejected a [DROP]: the drop transaction was rolled back, the
    database is as it was and no replay was attempted.  Or the drop
    transaction was committed and the replay failed: the tables of the
    resolved schemas stay dropped, what is left was there before, and
    the replay left nothing behind. *)
Theorem resetDatabase_failure baseDir force answer w w' :
  force = true \/ answer = true ->
  resetDatabase baseDir force answer w = (inr false, w') ->
  let schemas := resolveSchemas (search_path (db w)) (session_user (db w)) in
  let dropped := List.filter (fun t => bool_decide (t.1 ∈ schemas)) (pgTables (db w)) in
  let head :=
    (if force then [] else [Prompt confirmMessage true]) ++
    [Sql (Begin ""); Sql ShowSearchPath; Sql SelectUser; Sql (SelectTables schemas)] in
  fs w' = fs w /\
  ((exists done t rest msg,
      dropped = done ++ t :: rest /\
      db w' = db w /\
      newEvents w w' =
        head ++ map (fun t => Sql (DropTable t.1 t.2)) done ++
        [SqlFailed (DropTable t.1 t.2) msg; Sql Rollback;
         ConsoleError ["Failed"; msg]]) \/
   (exists replayEvents msg,
      newEvents w w' =
        head ++ map (fun t => Sql (DropTable t.1 t.2)) dropped ++
        [Sql Commit; ConsoleLog ["Reset"; "Tables dropped"]] ++
        replayEvents ++ [ConsoleError ["Failed"; msg]] /\
      (forall t, t ∈ tables (db w') ->
         t ∈ tables (db w) /\ schemaname t ∉ schemas) /\
      (forall s rows, ledger (db w') = Some (s, rows) ->
         ledger (db w) = Some (s, rows) /\ s ∉ schemas))).
Proof.
  intros Hgo ER schemas dropped head.
  set (w0 := if force then w else emit (Prompt confirmMessage true) w).
  assert (fs w0 = fs w /\ db w0 = db w /\
          trace w0 = trace w ++ (if force then [] else [Prompt confirmMessage true]))
    as (F0 & D0 & T0).
  { unfold w0. destruct force; simpl; [by rewrite app_nil_r|done]. }
  apply (resetDatabase_cases _ _ _ _ _ _ Hgo) in ER
    as [(e & w1 & EB & _ & ->)|(w1 & EB & EA)]; fold w0 in EB;
    apply begin_dropTransaction in EB as [F1 R]; rewrite D0 in R;
    fold schemas in R; fold dropped in R.
  - destruct R as (D1 & _ & done & t & rest & E & _ & T1).
    split; [simpl; congruence|]. left. exists done, t, rest, (message e).
    split; [done|]. split; [simpl; congruence|].
    apply newEvents_app. simpl. rewrite T1, T0. unfold head.
    rewrite <- !app_assoc. simpl. by rewrite <- ?app_assoc.
  - destruct R as (T1 & gone & D1 & Hnone & _).
    destruct (without_left schemas gone _ _ D1 Hnone) as [HT HL].
    apply applyMigrations_failed in EA as (F2 & D2 & evs & msg & T2).
    simpl in F2, D2, T2. split; [congruence|]. right. exists evs, msg.
    rewrite D2. split; [|done].
    apply newEvents_app. rewrite T2, T1, T0. unfold head.
    rewrite <- !app_assoc. simpl. by rewrite <- ?app_assoc.
Qed.

End ResetExtras.

(** ** The generate operation: more of its behaviour *)

Section GenerateExtras.

Lemma mkdirFrom_files segs : forall parent f f',
  mkdirFrom parent segs f = Some f' -> files f' = files f.
Proof.
  induction segs as [|seg segs IH]; intros parent f f'; simpl.
  - by intros [= <-].
  - destruct (files f !! child parent seg); [done|].
    destruct (dirs f !! child parent seg).
    + apply IH.
    + intros E. by apply IH in E.
Qed.

(** X13. [generateMigration] does not catch the errors of the file system.
    When the directory cannot be created the call throws before it writes
    or reports anything; and whenever the call throws, no file was written
    and nothing was reported as created. *)
Theorem generateMigration_failure now name baseDir w :
  (mkdirRecursive (Path.resolve (cwd (fs w)) baseDir) (fs w) = None ->
   exists e, generateMigration now name baseDir w = (inl e, w) /\ kind e = SystemError) /\
  (forall e w',
     generateMigration now name baseDir w = (inl e, w') ->
     kind e = SystemError /\
     files (fs w') = files (fs w) /\
     forall ev, ev ∈ newEvents w w' ->
       exists p, ev = Mkdir p).
Proof.
  unfold generateMigration, fsMkdir, fsWriteFile. munfold. split.
  - intros ->. eauto.
  - intros e w'.
    destruct (mkdirRecursive _ (fs w)) as [f1|] eqn:E1; simpl.
    2:{ intros [= <- <-]. repeat split; try done.
        intros ev. unfold newEvents. rewrite drop_all. by intros ?%elem_of_nil. }
    destruct (writeFile _ _ f1) as [f2|] eqn:E2; simpl; [done|].
    intros [= <- <-]. simpl. repeat split.
    + by apply mkdirFrom_files in E1.
    + intros ev. erewrite newEvents_app by (simpl; reflexivity).
      intros ->%list_elem_of_singleton. eauto.
Qed.

Lemma rev_app_append a : forall b acc,
  String.rev_app (a +:+ b) acc = String.rev_app b (String.rev_app a acc).
Proof.
  induction a as [|c a IH]; intros b acc; [done|].
  rewrite append_cons. simpl. apply IH.
Qed.

Lemma startsWith_append p x : Js.startsWith p (p +:+ x) = true.
Proof.
  induction p as [|c p IH]; [done|]. rewrite append_cons. simpl.
  by rewrite Ascii.eqb_refl.
Qed.

Lemma startsWith_rev_app b : forall p x,
  Js.startsWith (String.rev_app b p) (String.rev_app b (p +:+ x)) = true.
Proof.
  induction b as [|c b IH]; intros p x; simpl; [apply startsWith_append|].
  rewrite <- append_cons. apply IH.
Qed.

Lemma endsWith_append a b : Js.endsWith b (a +:+ b) = true.
Proof.
  unfold Js.endsWith, String.rev. rewrite rev_app_append.
  apply (startsWith_rev_app b EmptyString).
Qed.

Lemma allChars_impl (p q : ascii -> bool) s :
  (forall c, p c = true -> q c = true) ->
  Js.allChars p s = true -> Js.allChars q s = true.
Proof.
  intros Hpq. induction s as [|c s IH]; [done|]. simpl.
  intros [Hc Hs]%andb_true_iff. by rewrite (Hpq c Hc), IH.
Qed.

(** X14. A generated file is one the catalog will read.  Its name ends with
    the .sql extension, consists of digits, lowercase letters, underscores
    and dots only (so it is a single path segment), and is no property of
    [Object.prototype]. *)
Theorem migrationFileName_recognised now name :
  Js.endsWith ".sql" (migrationFileName now name) = true /\
  Js.allChars isFileNameChar (migrationFileName now name) = true /\
  migrationFileName now name ∉ JsObject.prototypeKeys.
Proof.
  assert (Js.endsWith ".sql" (migrationFileName now name) = true) as He.
  { unfold migrationFileName. rewrite <- !append_assoc. apply endsWith_append. }
  split; [exact He|]. split; [|by apply sql_not_prototype].
  unfold migrationFileName. rewrite namePart_spec, !allChars_app.
  destruct (timestamp_digits now) as (_ & Hd & _).
  assert (Js.allChars isFileNameChar
            (Js.slice0 14 (Js.replaceAll Js.notDigit "" (Js.toISOString now))) = true)
    as ->.
  { eapply allChars_impl; [|exact Hd]. intros c Hc. unfold isFileNameChar.
    rewrite Hc. by destruct (Js.isLowerAZ c). }
  assert (Js.allChars isFileNameChar (specNamePart name) = true) as ->.
  { eapply allChars_impl; [|apply namePart_chars]. intros c Hc.
    unfold isFileNameChar. simpl in Hc. by rewrite Hc. }
  done.
Qed.

End GenerateExtras.

(** ** File names and time *)

Section Chronology.

Lemma compare_append_same a s1 s2 :
  String.compare (a +:+ s1) (a +:+ s2) = String.compare s1 s2.
Proof.
  induction a as [|c a IH]; [done|]. rewrite !append_cons. simpl.
  unfold Ascii.compare. by rewrite N.compare_refl.
Qed.

Lemma compare_append_lt a : forall b s1 s2,
  String.length a = String.length b ->
  String.compare a b = Lt ->
  String.compare (a +:+ s1) (b +:+ s2) = Lt.
Proof.
  induction a as [|c a IH]; intros [|d b] s1 s2 Hl Hc; try done.
  rewrite !append_cons. simpl in *.
  destruct (Ascii.compare c d); [|done..]. apply IH; [lia|done].
Qed.

Lemma padAcc_append w : forall n acc, Js.padAcc w n acc = Js.pad w n +:+ acc.
Proof.
  induction w as [|w IH]; intros n acc; [done|].
  unfold Js.pad. simpl. rewrite (IH _ (String _ EmptyString)), IH.
  by rewrite append_assoc.
Qed.

Lemma pad_S w n :
  Js.pad (S w) n = Js.pad w (n / 10) +:+ String (Js.digitChar (n mod 10)) EmptyString.
Proof. unfold Js.pad at 1. simpl. apply padAcc_append. Qed.

Lemma digitChar_lt x y :
  0 <= x < y -> y <= 9 -> Ascii.compare (Js.digitChar x) (Js.digitChar y) = Lt.
Proof.
  intros Hx Hy. unfold Ascii.compare, Js.digitChar.
  rewrite !N_ascii_embedding by lia. apply N.compare_lt_iff. lia.
Qed.

(** Zero-padded numbers of one width compare as strings the way they
    compare as numbers. *)
Lemma pad_lt w : forall a b,
  0 <= a < b -> b < 10 ^ Z.of_nat w ->
  String.compare (Js.pad w a) (Js.pad w b) = Lt.
Proof.
  induction w as [|w IH]; intros a b Hab Hb.
  - simpl in Hb. lia.
  - rewrite Nat2Z.inj_succ, Z.pow_succ_r in Hb by lia.
    rewrite !pad_S.
    pose proof (Z.div_mod a 10 ltac:(lia)) as Ha.
    pose proof (Z.div_mod b 10 ltac:(lia)) as Hb'.
    pose proof (Z.mod_pos_bound a 10 ltac:(lia)).
    pose proof (Z.mod_pos_bound b 10 ltac:(lia)).
    destruct (Z.lt_trichotomy (a / 10) (b / 10)) as [Hlt|[Heq|Hgt]].
    + apply compare_append_lt; [by rewrite !pad_length|].
      apply IH; lia.
    + rewrite Heq, compare_append_same. simpl.
      rewrite digitChar_lt; [done|lia|lia].
    + lia.
Qed.

Lemma pad2_lt a b : 0 <= a < b -> b < 100 -> String.compare (Js.pad 2 a) (Js.pad 2 b) = Lt.
Proof. intros. by apply pad_lt. Qed.

Lemma pad4_lt a b : 0 <= a < b -> b < 10000 -> String.compare (Js.pad 4 a) (Js.pad 4 b) = Lt.
Proof. intros. by apply pad_lt. Qed.

(** X15. File names sort in the order of generation.  For dates of the years
    0 to 9999, a file generated in an earlier second has the smaller name
    in the order of code units, whatever the two migration names are. *)
Theorem migrationFileName_chronological a b nameA nameB :
  fourDigitYear a -> fourDigitYear b -> earlierSecond a b ->
  String.compare (migrationFileName a nameA) (migrationFileName b nameB) = Lt.
Proof.
  intros Ha Hb Hab. unfold migrationFileName.
  destruct (timestamp_digits a) as (La & _ & Ta).
  destruct (timestamp_digits b) as (Lb & _ & Tb).
  apply compare_append_lt; [by rewrite La, Lb|].
  destruct Ha as (Ya & Ma & Da & Oa & Ia & Sa).
  destruct Hb as (Yb & Mb & Db & Ob & Ib & Sb).
  rewrite (Ta Ya), (Tb Yb). clear La Lb Ta Tb.
  destruct Hab as [Hy|[Ey Hab]].
  { apply compare_append_lt; [by rewrite !pad_length|]. apply pad4_lt; lia. }
  rewrite Ey, compare_append_same.
  destruct Hab as [Hm|[Em Hab]].
  { apply compare_append_lt; [by rewrite !pad_length|]. apply pad2_lt; lia. }
  rewrite Em, compare_append_same.
  destruct Hab as [Hd|[Ed Hab]].
  { apply compare_append_lt; [by rewrite !pad_length|]. apply pad2_lt; lia. }
  rewrite Ed, compare_append_same.
  destruct Hab as [Hh|[Eh Hab]].
  { apply compare_append_lt; [by rewrite !pad_length|]. apply pad2_lt; lia. }
  rewrite Eh, compare_append_same.
  destruct Hab as [Hi|[Ei Hs]].
  { apply compare_append_lt; [by rewrite !pad_length|]. apply pad2_lt; lia. }
  rewrite Ei, compare_append_same. apply pad2_lt; lia.
Qed.

Lemma startsWith_slash_append a x :
  Path.isAbsolute a = true -> Path.isAbsolute (a +:+ x) = true.
Proof. destruct a as [|c a]; [done|]. by rewrite append_cons. Qed.

Lemma normalize_absolute p :
  Path.isAbsolute p = true -> Path.isAbsolute (Path.normalize p) = true.
Proof.
  intros Hp. unfold Path.normalize. case_bool_decide as E; [by rewrite E in Hp|].
  rewrite Hp. simpl. case_bool_decide; [done|].
  by destruct (Js.endsWith "/" p).
Qed.

Lemma resolve_absolute cwd p :
  Path.isAbsolute cwd = true -> Path.isAbsolute (Path.resolve cwd p) = true.
Proof.
  intros Hc. unfold Path.resolve.
  destruct (Path.isAbsolute p); [done|].
  case_bool_decide as E; [by rewrite E in Hc|]. by rewrite Hc.
Qed.

Lemma join_absolute a b :
  Path.isAbsolute a = true -> Path.isAbsolute (Path.join a b) = true.
Proof.
  intros Ha. unfold Path.join.
  case_bool_decide as E; [by rewrite E in Ha|].
  case_bool_decide; apply normalize_absolute; [done|].
  by apply startsWith_slash_append.
Qed.

(** X16. The file is created under an absolute path.  In a process whose
    working directory is absolute, [generateMigration] creates the
    directory and writes the file at absolute paths, whatever directory
    it was given; the path it reports is the given directory joined with
    the file name. *)
Theorem generateMigration_absolute now name baseDir w w' :
  Path.isAbsolute (cwd (fs w)) = true ->
  generateMigration now name baseDir w = (inr tt, w') ->
  exists dir target,
    newEvents w w' =
      [Mkdir dir; WriteFile target migrationTemplate;
       ConsoleLog ["Created"; Path.join baseDir (migrationFileName now name)]] /\
    Path.isAbsolute dir = true /\
    Path.isAbsolute target = true.
Proof.
  intros Hc. unfold generateMigration, fsMkdir, fsWriteFile. munfold.
  destruct (mkdirRecursive _ (fs w)) as [f1|]; [|done]. simpl.
  destruct (writeFile _ _ f1) as [f2|]; [|done]. simpl.
  intros [= <-]. eexists _, _. split; [|split].
  - apply newEvents_app. simpl. by rewrite <- !app_assoc.
  - by apply resolve_absolute.
  - by apply join_absolute, resolve_absolute.
Qed.

End Chronology.

(** ** The commands *)

Section CommandProperties.

Context `{Collaborators}.

Lemma applyMigrations_returns baseDir w :
  exists b w',
    applyMigrations baseDir w = (inr b, w') /\ (b = false -> db w' = db w).
Proof.
  rewrite applyMigrations_eq.
  destruct (getMigrationFiles baseDir w) as [[e|catalog] w1] eqn:EG;
    pose proof (getMigrationFiles_world _ _ _ _ EG) as ->.
  - eexists _, _. split; [done|]. done.
  - destruct (applyTransaction _ _ _) as [[e|n] w2]; eexists _, _; (split; [done|]);
      done.
Qed.

Lemma exitStatus_app p l :
  omap (fun a => match a with Exit c => Some c | _ => None end) l = [] ->
  exitStatus {| world := world p; actions := actions p ++ l |} = exitStatus p.
Proof. intros E. unfold exitStatus. simpl. by rewrite omap_app, E, app_nil_r. Qed.

(** X17. [apply] exits with status 1 exactly when [applyMigrations] returned
    [false], that is when the database is as it was; in both cases the
    connection is ended first. *)
Theorem applyCommand_exit dir p :
  exists (b : bool) w' p',
    applyMigrations dir (world p) = (inr b, w') /\
    applyCommand dir p = (inr tt, p') /\
    world p' = w' /\
    actions p' = actions p ++ [Connect; EndConnection] ++ (if b then [] else [Exit 1]) /\
    exitStatus p' = (if b then exitStatus p else 1) /\
    (b = false -> db w' = db (world p)).
Proof.
  destruct (applyMigrations_returns dir (world p)) as (b & w' & EA & D).
  unfold applyCommand, await, act. simpl. rewrite EA.
  exists b, w'. destruct b; simpl; eexists; (split; [done|]); (split; [done|]);
    simpl; (split; [done|]); rewrite <- !app_assoc; simpl; (split; [done|]);
    (split; [|done]).
  - apply (exitStatus_app p [Connect; EndConnection]). done.
  - unfold exitStatus. simpl. rewrite omap_app. simpl. by rewrite last_snoc.
Qed.

(** X18. [reset] never sets a failure status.  Whatever [resetDatabase]
    returns, declined, failed or done, the handler ends the connection and
    returns, and the exit status is the one the process had. *)
Theorem resetCommand_exit dir force answer p :
  exists (b : bool) w' p',
    resetDatabase dir force answer (world p) = (inr b, w') /\
    resetCommand dir force answer p = (inr tt, p') /\
    world p' = w' /\
    actions p' = actions p ++ [Connect; EndConnection] /\
    exitStatus p' = exitStatus p.
Proof.
  destruct (resetDatabase_returns dir force answer (world p)) as (b & w' & ER).
  unfold resetCommand, await, act. simpl. rewrite ER.
  exists b, w'. eexists. split; [done|]. split; [done|]. simpl.
  split; [done|]. rewrite <- !app_assoc. simpl. split; [done|].
  apply (exitStatus_app p [Connect; EndConnection]). done.
Qed.

End CommandProperties.

(** ** The further properties on the concrete installations *)

Lemma applyMigrations_catalog_failure_witness :
  let w := Scenario.mkWorld Cases.blocked Scenario.fresh in
  readdir (fs w) Scenario.dir = None /\
  exists msg,
    applyMigrations Scenario.dir w =
    (inr false,
     {| fs := Cases.blocked; db := Scenario.fresh;
        trace := [ConsoleError ["Failed"; msg]] |}).
Proof.
  intros w. split; [by vm_compute|].
  apply (applyMigrations_catalog_failure Scenario.dir w).
  left. by vm_compute.
Defined.

Lemma getMigrationFiles_failure_witness :
  let w := Scenario.mkWorld Cases.unreadable Scenario.fresh in
  readFile (fs w) (Path.join Scenario.dir Scenario.initSql) = Some "init" /\
  readFile (fs w) (Path.join Scenario.dir "broken.sql") = None /\
  exists e, getMigrationFiles Scenario.dir w = (inl e, w) /\ kind e = SystemError.
Proof.
  intros w. split; [by vm_compute|]. split; [by vm_compute|].
  apply (proj1 (getMigrationFiles_failure Scenario.dir w)).
  right. exists [Scenario.initSql; "broken.sql"], "broken.sql".
  split; [by vm_compute|]. split.
  - apply elem_of_cons; right; apply elem_of_cons; by left.
  - split; by vm_compute.
Defined.

Lemma ledger_matches_twoSorted m :
  m ∈ ledgerRows Scenario.migrated ->
  exists f,
    catalogFile [Scenario.fileOf Scenario.initSql "init";
                 Scenario.fileOf Scenario.usersSql "users"] (Migration.name m) = Some f /\
    Migration.checksum m = MigrationFile.checksum f.
Proof.
  intros Hm. apply elem_of_cons in Hm as [->|Hm].
  { exists (Scenario.fileOf Scenario.initSql "init"). by vm_compute. }
  apply elem_of_cons in Hm as [->|Hm].
  { exists (Scenario.fileOf Scenario.usersSql "users"). by vm_compute. }
  by apply elem_of_nil in Hm.
Defined.

Lemma applyMigrations_nothing_pending_witness :
  let w := Scenario.mkWorld Scenario.twoSorted Scenario.migrated in
  exists w',
    applyMigrations Scenario.dir w = (inr true, w') /\
    tables (db w') = Scenario.userTables /\
    ledgerRows (db w') = [Scenario.initRow; Scenario.usersRow].
Proof.
  intros w.
  destruct (applyMigrations_nothing_pending Scenario.dir w
              [Scenario.fileOf Scenario.initSql "init";
               Scenario.fileOf Scenario.usersSql "users"])
    as (w' & EA & T & L & _).
  - by vm_compute.
  - apply ledger_matches_twoSorted.
  - intros f Hf. apply elem_of_cons in Hf as [->|Hf].
    { apply elem_of_cons; by left. }
    apply elem_of_cons in Hf as [->|Hf].
    { apply elem_of_cons; right; apply elem_of_cons; by left. }
    by apply elem_of_nil in Hf.
  - exists w'. split; [exact EA|]. split; [exact T|exact L].
Defined.

Lemma applyMigrations_twice_witness :
  let w := Scenario.mkWorld Scenario.twoSorted Scenario.fresh in
  ledgerRows (db (applyMigrations Scenario.dir w).2) =
    [Scenario.initRow; Scenario.usersRow] /\
  exists w2,
    applyMigrations Scenario.dir (applyMigrations Scenario.dir w).2 = (inr true, w2) /\
    db w2 = db (applyMigrations Scenario.dir w).2.
Proof.
  intros w. split; [by vm_compute|].
  destruct (applyMigrations_twice Scenario.dir w (applyMigrations Scenario.dir w).2)
    as (w2 & EA & D & _).
  - by vm_compute.
  - exists w2. split; [exact EA|exact D].
Defined.

Lemma applyMigrations_names_distinct_witness :
  let w := Scenario.mkWorld Scenario.threeSorted Scenario.migrated in
  (applyMigrations Scenario.dir w).1 = inr true /\
  NoDup (map Migration.name (ledgerRows (db (applyMigrations Scenario.dir w).2))).
Proof.
  intros w. split; [by vm_compute|].
  apply (applyMigrations_names_distinct Scenario.dir w (applyMigrations Scenario.dir w).1).
  - compute_done.
  - by destruct (applyMigrations Scenario.dir w).
Defined.

Lemma applyMigrations_rounds_sorted_witness :
  let w := Scenario.mkWorld Scenario.threeSorted Scenario.migrated in
  map Migration.round (ledgerRows (db (applyMigrations Scenario.dir w).2)) = [1; 1; 2] /\
  Sorted roundLe (ledgerRows (db (applyMigrations Scenario.dir w).2)).
Proof.
  intros w. split; [by vm_compute|].
  apply (applyMigrations_rounds_sorted Scenario.dir w (applyMigrations Scenario.dir w).1).
  - repeat constructor; unfold roundLe; simpl; lia.
  - by destruct (applyMigrations Scenario.dir w).
Defined.

Lemma applyMigrations_succeeds_witness :
  let w := Scenario.mkWorld Scenario.threeSorted Scenario.migrated in
  exists w',
    applyMigrations Scenario.dir w = (inr true, w') /\
    map tablename (tables (db w')) = ["notes"; "old_notes"; "index"] /\
    ledgerRows (db w') =
      [Scenario.initRow; Scenario.usersRow;
       Migration.mk Scenario.indexSql "sha256:index" 2].
Proof.
  intros w.
  destruct (applyMigrations_succeeds Scenario.dir w
              [Scenario.fileOf Scenario.initSql "init";
               Scenario.fileOf Scenario.usersSql "users";
               Scenario.fileOf Scenario.indexSql "index"]
              (Scenario.userTables ++
               [{| schemaname := "public"; tablename := "index"; tablerows := [] |}]))
    as (w' & EA & T & L).
  - by vm_compute.
  - compute_done.
  - intros m Hm. apply elem_of_cons in Hm as [->|Hm].
    { exists (Scenario.fileOf Scenario.initSql "init"). by vm_compute. }
    apply elem_of_cons in Hm as [->|Hm].
    { exists (Scenario.fileOf Scenario.usersSql "users"). by vm_compute. }
    by apply elem_of_nil in Hm.
  - by vm_compute.
  - right. by vm_compute.
  - exists w'. split; [exact EA|]. split; [by rewrite T|].
    rewrite L. by vm_compute.
Defined.

Lemma applyMigrations_tables_witness :
  let w := Scenario.mkWorld Scenario.threeSorted Scenario.migrated in
  exists catalog,
    getMigrationFiles Scenario.dir w = (inr catalog, w) /\
    runScripts (fs w)
      (map MigrationFile.path (pendingFiles catalog (ledgerRows (db w))))
      (tables (db w)) = Some (tables (db (applyMigrations Scenario.dir w).2)).
Proof.
  intros w.
  apply (applyMigrations_tables Scenario.dir w (applyMigrations Scenario.dir w).2).
  by vm_compute.
Defined.

Lemma applyMigrations_missing_file_witness :
  let w := Scenario.mkWorld Scenario.deleted Scenario.migrated in
  catalogFile [Scenario.fileOf Scenario.usersSql "users"] Scenario.initSql = None /\
  exists w',
    applyMigrations Scenario.dir w = (inr false, w') /\
    db w' = Scenario.migrated.
Proof.
  intros w. split; [by vm_compute|].
  destruct (applyMigrations_missing_file Scenario.dir w
              [Scenario.fileOf Scenario.usersSql "users"] "public"
              [Scenario.initRow; Scenario.usersRow]
              [] Scenario.initRow [Scenario.usersRow])
    as (w' & EA & D & _).
  - by vm_compute.
  - reflexivity.
  - by vm_compute.
  - apply Forall_nil_2.
  - by vm_compute.
  - by apply sql_not_prototype.
  - exists w'. split; [exact EA|exact D].
Defined.



Lemma dropTransaction_outcome_witness :
  let w := Scenario.mkWorld Scenario.twoSorted Cases.partitioned in
  let w' := (begin "" dropTransaction w).2 in
  (begin "" dropTransaction w).1 = inr tt /\
  map (fun t => (schemaname t, tablename t)) (tables (db w')) = [("archive", "old_notes")] /\
  forall t, t ∈ tables (db w') ->
    t ∈ tables (db w) /\
    schemaname t ∉ resolveSchemas (search_path (db w)) (session_user (db w)).
Proof.
  intros w w'. split; [by vm_compute|]. split; [by vm_compute|].
  destruct (dropTransaction_outcome w (inr tt) w') as (HT & _); [by vm_compute|].
  exact HT.
Defined.

Lemma resetDatabase_failure_witness :
  let w := Scenario.mkWorld Scenario.twoSorted Cases.guarded in
  let w' := (resetDatabase Scenario.dir true false w).2 in
  (resetDatabase Scenario.dir true false w).1 = inr false /\
  db w' = db w /\
  fs w' = fs w.
Proof.
  intros w w'. split; [by vm_compute|]. split; [by vm_compute|].
  destruct (resetDatabase_failure Scenario.dir true false w w') as [F _].
  - by left.
  - by vm_compute.
  - exact F.
Defined.

(** A reset on a database one of whose tables belongs to another role: the
    second [DROP] is rejected, the first is rolled back with it, and no
    replay is attempted. *)
Example resetDatabase_rejected_drop :
  let w := Scenario.mkWorld Scenario.twoSorted Cases.guarded in
  let w' := (resetDatabase Scenario.dir true false w).2 in
  (resetDatabase Scenario.dir true false w).1 = inr false /\
  db w' = db w /\
  newEvents w w' =
    [Sql (Begin ""); Sql ShowSearchPath; Sql SelectUser;
     Sql (SelectTables ["alice"; "public"]);
     Sql (DropTable "public" "notes");
     SqlFailed (DropTable "public" "audit_log") "must be owner of table audit_log";
     Sql Rollback;
     ConsoleError ["Failed"; "must be owner of table audit_log"]].
Proof. by vm_compute. Qed.

(** A table of the search path with a partition in another schema: the
    partition goes with it. *)
Example dropTransaction_cascade :
  let w := Scenario.mkWorld Scenario.twoSorted Cases.partitioned in
  let w' := (begin "" dropTransaction w).2 in
  newEvents w w' =
    [Sql (Begin ""); Sql ShowSearchPath; Sql SelectUser;
     Sql (SelectTables ["alice"; "public"]);
     Sql (DropTable "public" "events"); Sql Commit] /\
  pgTables (db w') = [("archive", "old_notes")].
Proof. by vm_compute. Qed.

Lemma generateMigration_failure_witness :
  let w := Scenario.mkWorld Cases.blocked Scenario.fresh in
  exists e,
    generateMigration Scenario.sampleDate "add users" Scenario.dir w = (inl e, w) /\
    kind e = SystemError.
Proof.
  intros w.
  apply (proj1 (generateMigration_failure Scenario.sampleDate "add users" Scenario.dir w)).
  by vm_compute.
Defined.

Lemma migrationFileName_chronological_witness :
  migrationFileName Scenario.sampleDate "zz last" = "20231025194200_zz_last.sql" /\
  migrationFileName Cases.laterDate "aa first" = "20231102080059_aa_first.sql" /\
  String.compare (migrationFileName Scenario.sampleDate "zz last")
                 (migrationFileName Cases.laterDate "aa first") = Lt.
Proof.
  split; [reflexivity|]. split; [reflexivity|].
  apply migrationFileName_chronological.
  - unfold fourDigitYear. simpl. lia.
  - unfold fourDigitYear. simpl. lia.
  - unfold earlierSecond. simpl. lia.
Defined.

Lemma generateMigration_absolute_witness :
  let w := Scenario.mkWorld Scenario.twoSorted Scenario.fresh in
  exists dir target,
    newEvents w (generateMigration Scenario.sampleDate "add users" Scenario.dir w).2 =
      [Mkdir dir; WriteFile target migrationTemplate;
       ConsoleLog ["Created"; "migrations/20231025194200_add_users.sql"]] /\
    Path.isAbsolute dir = true /\
    Path.isAbsolute target = true.
Proof.
  intros w.
  apply (generateMigration_absolute Scenario.sampleDate "add users" Scenario.dir w).
  - reflexivity.
  - by vm_compute.
Defined.

(** A reset whose replay fails: [resetDatabase] returns [false], the tables
    are gone, and the process ends with status 0. *)
Example resetCommand_example :
  let p := Cases.start Scenario.broken Scenario.migrated in
  (resetDatabase Scenario.dir true false (world p)).1 = inr false /\
  actions (resetCommand Scenario.dir true false p).2 = [Connect; EndConnection] /\
  exitStatus (resetCommand Scenario.dir true false p).2 = 0.
Proof. by vm_compute. Qed.

Example applyCommand_example :
  let p := Cases.start Scenario.broken Scenario.fresh in
  actions (applyCommand Scenario.dir p).2 = [Connect; EndConnection; Exit 1] /\
  exitStatus (applyCommand Scenario.dir p).2 = 1 /\
  db (world (applyCommand Scenario.dir p).2) = Scenario.fresh.
Proof. by vm_compute. Qed.

Example generateCommand_example :
  let p := Cases.start Scenario.twoSorted Scenario.fresh in
  actions (generateCommand Scenario.sampleDate None Scenario.dir "Add Index" p).2 =
    [Input "Name of the migration" "Add Index"] /\
  readFile (fs (world (generateCommand Scenario.sampleDate None Scenario.dir "Add Index" p).2))
    "migrations/20231025194200_add_index.sql" = Some migrationTemplate.
Proof. by vm_compute. Qed.
